(** * graphgen: the Python binding of the Klemm-Eguiluz generator

    A shallow embedding of [src/graphgen/klemm/klemm_graph_generator.cpp]:
    the entry point [GenerateKlemmGraph] and the three marshalling routines
    [ConvertEdgeDequeToNumpyArray], [ConvertWeightMapToNumpyArray] and
    [ConvertMemberDequeToTuple].

    The generator proper, [build_network_klemm], is declared in [benchm.hpp],
    which is not part of the sources at hand; the entry point is therefore
    stated over an arbitrary [build_network_klemm]. *)

From Stdlib Require Import ZArith List Lia SpecFloat.
From stdpp Require Import base option list sorting gmap.

Local Open Scope Z_scope.

(** ** C++ values *)

(** [int] is a 32-bit two's complement integer; [std::size_t], [npy_intp] and
    [Py_ssize_t] only ever count elements of containers that exist in memory
    and are kept as [nat]. *)
Definition int_range (x : Z) : Prop := -2 ^ 31 <= x < 2 ^ 31.

(** Conversion of an [int] to [npy_uint64] ([data[edge_index+1] = *head]):
    the value modulo 2^64. *)
Definition uint64_of_int (x : Z) : Z := x mod 2 ^ 64.

(** Conversion of a [std::size_t] to [npy_uint64] ([data[edge_index] = tail]). *)
Definition uint64_of_size_t (n : nat) : Z := Z.of_nat n.

(** [double] and [npy_float32] are IEEE 754 binary64 and binary32 values,
    both kept as [spec_float]; [is_double] says that a value is in the
    canonical form of a binary64 number. *)
Definition is_double (d : spec_float) : bool := valid_binary 53 1024 d.

(** [static_cast<npy_float32>(d)]: rounding to the nearest binary32 value,
    ties to even; zeros, infinities and NaN keep their class. *)
Definition float32_of_double (d : spec_float) : spec_float :=
  match d with
  | S754_finite s m e => binary_round 24 128 s m e
  | _ => d
  end.

(** ** Containers *)

(** [std::set<int>] is a finite set of integers; its iterators visit the
    elements in ascending order. *)
Definition set_iter (s : gset Z) : list Z := merge_sort Z.le (elements s).

(** What can go wrong in the marshalling code. *)
Inductive fault :=
  | out_of_range      (* thrown by std::map::at *)
  | deque_past_end    (* operator[] of a deque at an index >= size() *)
  | buffer_overrun.   (* a store outside the numpy buffer *)

Inductive result (A : Type) :=
  | Ok (a : A)
  | Fault (f : fault).
Arguments Ok {A} a.
Arguments Fault {A} f.

Global Instance result_ret : MRet result := @Ok.
Global Instance result_bind : MBind result := λ A B k r,
  match r with
  | Ok a => k a
  | Fault f => Fault f
  end.

(** A [for] loop over the elements [xs] carrying the loop state [s]. *)
Fixpoint for_each {S A} (xs : list A) (body : S → A → result S) (s : S)
  : result S :=
  match xs with
  | [] => Ok s
  | x :: xs' => s' ← body s x ; for_each xs' body s'
  end.

(** [c[i]] on a [std::deque]. *)
Definition deque_index {A} (c : list A) (i : nat) : result A :=
  match c !! i with
  | Some x => Ok x
  | None => Fault deque_past_end
  end.

(** [m.at(k)] on a [std::map<int, double>]. *)
Definition map_at (m : gmap Z spec_float) (k : Z) : result spec_float :=
  match m !! k with
  | Some w => Ok w
  | None => Fault out_of_range
  end.

(** ** numpy arrays *)

Record ndarray (A : Type) := { shape : list nat; data : list A }.
Arguments shape {A} _.
Arguments data {A} _.

(** [PyArray_SimpleNew(nd, dims, type)]: a buffer of [prod dims] elements
    whose contents are whatever the allocator left there ([junk]). *)
Definition PyArray_SimpleNew {A} (junk : nat → A) (dims : list nat) : ndarray A :=
  {| shape := dims; data := junk <$> seq 0 (foldr Nat.mul 1%nat dims) |}.

(** [data[i] = v]. *)
Definition store {A} (buf : list A) (i : nat) (v : A) : result (list A) :=
  if decide (i < length buf)%nat then Ok (<[i:=v]> buf) else Fault buffer_overrun.

(** ** The marshalling routines *)

(** Lines 52-57 and 85-90: the edge count both routines start with. *)
Definition count_edges (Eout : list (gset Z)) : nat :=
  foldl (fun num_edges head_set =>
           foldl (fun num_edges _ => S num_edges) num_edges (set_iter head_set))
        0%nat Eout.

(** Lines 50-80. *)
Definition ConvertEdgeDequeToNumpyArray (junk : nat → Z) (Eout : list (gset Z))
  : result (ndarray Z) :=
  let num_edges := count_edges Eout in
  let size_data := [num_edges; 2%nat] in
  let py_array := PyArray_SimpleNew junk size_data in
  '(buf, _) ←
    for_each (seq 0 (length Eout))
      (fun st tail =>
         head_set ← deque_index Eout tail;
         for_each (set_iter head_set)
           (fun '(buf, edge_index) head =>
              buf ← store buf edge_index (uint64_of_size_t tail);
              buf ← store buf (edge_index + 1) (uint64_of_int head);
              Ok (buf, (edge_index + 2)%nat))
           st)
      (data py_array, 0%nat);
  Ok {| shape := shape py_array; data := buf |}.

(** Lines 82-111. *)
Definition ConvertWeightMapToNumpyArray (junk : nat → spec_float)
    (Wout : list (gmap Z spec_float)) (Eout : list (gset Z))
  : result (ndarray spec_float) :=
  let num_edges := count_edges Eout in
  let size_data := [num_edges] in
  let py_array := PyArray_SimpleNew junk size_data in
  '(buf, _) ←
    for_each (seq 0 (length Eout))
      (fun st tail =>
         head_set ← deque_index Eout tail;
         for_each (set_iter head_set)
           (fun '(buf, edge_index) head =>
              weights ← deque_index Wout tail;
              w ← map_at weights head;
              buf ← store buf edge_index (float32_of_double w);
              Ok (buf, (edge_index + 1)%nat))
           st)
      (data py_array, 0%nat);
  Ok {| shape := shape py_array; data := buf |}.

(** Lines 113-132.  [PyTuple_New n] is a tuple of [n] empty slots, filled by
    [PyTuple_SetItem]; [PyLong_FromLong (long) x] keeps the value of the
    [int]. *)
Definition PyTuple_SetItem {A} (t : list (option A)) (i : nat) (v : A)
  : list (option A) := <[i:=Some v]> t.

Definition PyTuple_New {A} (n : nat) : list (option A) := replicate n None.

Definition ConvertMemberDequeToTuple (member_list : list (list Z))
  : result (list (option (list (option Z)))) :=
  let member_tuple := PyTuple_New (length member_list) in
  for_each (seq 0 (length member_tuple))
    (fun member_tuple member =>
       communities ← deque_index member_list member;
       let communities_tuple := PyTuple_New (length communities) in
       communities_tuple ←
         for_each (seq 0 (length communities_tuple))
           (fun communities_tuple iii =>
              label ← deque_index communities iii;
              Ok (PyTuple_SetItem communities_tuple iii label))
           communities_tuple;
       Ok (PyTuple_SetItem member_tuple member communities_tuple))
    member_tuple.

(** ** The entry point *)

(** The six arguments of [GenerateKlemmGraph] once
    [PyArg_ParseTupleAndKeywords] has accepted them (format ["iidddi"]). *)
Record params := {
  num_nodes : Z;
  clique_size : Z;
  clique_linkage : spec_float;
  muw : spec_float;
  beta : spec_float;
  seed : Z
}.

(** The three containers declared on lines 34-36 and handed to
    [build_network_klemm] by reference. *)
Record graph := {
  Eout : list (gset Z);
  member_list : list (list Z);
  Wout : list (gmap Z spec_float)
}.

Definition empty_graph : graph := {| Eout := []; member_list := []; Wout := [] |}.

(** Modelled from the spec: the error taxonomy of section 7
    ([InvalidParameter], [DegenerateInput]).  [build_network_klemm] itself
    is missing from the sources; these are the two ways the spec lets it
    fail. *)
Inductive klemm_error := InvalidParameter | DegenerateInput.

(** What a call of [build_network_klemm] can do to its caller: return, with
    the containers filled (a returned value, if there is one, is discarded on
    line 37), or leave by an exception. *)
Inductive build_outcome :=
  | BuildReturns (g : graph)
  | BuildThrows (e : klemm_error).

Definition member_tuple_t : Type := list (option (list (option Z))).

Inductive py_result :=
  | PyNULL                                       (* line 31 *)
  | PyTuple3 (edge_array : ndarray Z) (member_tuple : member_tuple_t)
             (weight_array : ndarray spec_float)  (* line 47 *)
  | Propagates (e : klemm_error)   (* no handler around line 37 *)
  | Faults (f : fault).            (* lines 39-41 *)

(** The steps of the entry point that a caller can tell apart, in the order
    in which they happen. *)
Inductive event :=
  | ev_containers   (* lines 34-36: Eout, member_list, Wout are constructed *)
  | ev_build        (* line 37: build_network_klemm is called *)
  | ev_marshal.     (* lines 39-45 *)

Section entry_point.
Variable build_network_klemm : params → graph → build_outcome.
Variable junk_edges : nat → Z.
Variable junk_weights : nat → spec_float.

(** Lines 16-48.  [args] is [None] when the arguments do not parse. *)
Definition GenerateKlemmGraph (args : option params) : list event * py_result :=
  match args with
  | None => ([], PyNULL)
  | Some p =>
      let g := empty_graph in
      match build_network_klemm p g with
      | BuildThrows e => ([ev_containers; ev_build], Propagates e)
      | BuildReturns g =>
          ([ev_containers; ev_build; ev_marshal],
           match
             edge_array ← ConvertEdgeDequeToNumpyArray junk_edges (Eout g);
             weight_array ←
               ConvertWeightMapToNumpyArray junk_weights (Wout g) (Eout g);
             member_tuple ← ConvertMemberDequeToTuple (member_list g);
             Ok (edge_array, member_tuple, weight_array)
           with
           | Ok (edge_array, member_tuple, weight_array) =>
               PyTuple3 edge_array member_tuple weight_array
           | Fault f => Faults f
           end)
      end
  end.
End entry_point.

(** ** Vocabulary of the statements *)

(** The edges of an adjacency structure in the order in which the loop nests
    of lines 71-77 and 103-108 meet them. *)
Fixpoint edges_from (tail : nat) (Eout : list (gset Z)) : list (nat * Z) :=
  match Eout with
  | [] => []
  | head_set :: rest =>
      ((fun head => (tail, head)) <$> set_iter head_set)
        ++ edges_from (S tail) rest
  end.

Definition edges_of (Eout : list (gset Z)) : list (nat * Z) := edges_from 0 Eout.

(** The two cells one edge occupies in the edge array. *)
Definition edge_cells (e : nat * Z) : list Z :=
  [uint64_of_size_t e.1; uint64_of_int e.2].

(** [Wout[tail].at(head)]. *)
Definition weight_of (Wout : list (gmap Z spec_float)) (e : nat * Z)
  : result spec_float :=
  weights ← deque_index Wout e.1; map_at weights e.2.

(** Row [i] of an E x 2 array stored row by row. *)
Definition row (a : ndarray Z) (i : nat) : option (Z * Z) :=
  t ← data a !! (2 * i)%nat; h ← data a !! (2 * i + 1)%nat; Some (t, h).

Definition edge_lt (e1 e2 : nat * Z) : Prop :=
  (e1.1 < e2.1)%nat ∨ (e1.1 = e2.1 ∧ e1.2 < e2.2).

(** A positive real number held in a floating-point cell. *)
Definition positive_real (d : spec_float) : bool :=
  match d with S754_finite false _ _ => true | _ => false end.

(** +0, a positive finite value or +infinity. *)
Definition not_below_zero (f : spec_float) : bool :=
  match f with
  | S754_zero false | S754_finite false _ _ | S754_infinity false => true
  | _ => false
  end.

Definition double_zero : spec_float := S754_zero false.
Definition double_one : spec_float := S754_finite false 4503599627370496 (-52).
(** 2^-150, half the smallest positive binary32 value, as a [double]. *)
Definition two_pow_m150 : spec_float := S754_finite false 4503599627370496 (-202).
(** 2^-149, the smallest positive binary32 value, as a [double]. *)
Definition two_pow_m149 : spec_float := S754_finite false 4503599627370496 (-201).

(** ** The generator as the spec describes it

    [build_network_klemm] lives in [benchm.hpp], which the sources do not
    include.  What follows is taken from the spec alone and is used only where
    a statement is about the generator itself. *)

(** Modelled from the spec: section 4.1, "fails with InvalidParameter when
    num_nodes < clique_size, clique_size < 2, or clique_linkage outside
    [0,1]" (the check of the missing Network Grower). *)
Definition outside_unit_interval (x : spec_float) : bool :=
  negb (SFleb double_zero x && SFleb x double_one).

Definition grower_params_invalid (p : params) : bool :=
  (num_nodes p <? clique_size p) || (clique_size p <? 2)
  || outside_unit_interval (clique_linkage p).

(** Modelled from the spec: section 4.2, "fails with InvalidParameter when
    beta is outside [0,1] or muw <= 0" (the check of the missing Weight
    Assigner). *)
Definition weight_params_invalid (p : params) : bool :=
  outside_unit_interval (beta p) || SFleb (muw p) double_zero.

(** Modelled from the spec: section 4.2, "for every node, partition its
    incident edges into intra-community (both endpoints share a community
    label) and inter-community sets" (part of the missing Weight Assigner). *)
Definition share_label (M : list (list Z)) (u v : nat) : bool :=
  match M !! u, M !! v with
  | Some lu, Some lv => existsb (fun c => bool_decide (c ∈ lv)) lu
  | _, _ => false
  end.

Definition incident (E : list (gset Z)) (u : nat) : list (nat * Z) :=
  filter (fun e => e.1 = u ∨ e.2 = Z.of_nat u) (edges_of E).

Definition intra_edges (E : list (gset Z)) (M : list (list Z)) (u : nat)
  : list (nat * Z) :=
  filter (fun e => share_label M e.1 (Z.to_nat e.2) = true) (incident E u).

Definition inter_edges (E : list (gset Z)) (M : list (list Z)) (u : nat)
  : list (nat * Z) :=
  filter (fun e => share_label M e.1 (Z.to_nat e.2) = false) (incident E u).

(** Modelled from the spec: section 4.2, "fails with DegenerateInput when a
    node has zero intra- or zero inter-community edges but a nonzero weight
    fraction is requested for that category"; the inter-community fraction is
    [beta], the intra-community one is what remains (the missing Weight
    Assigner). *)
Definition degenerate (E : list (gset Z)) (M : list (list Z)) (b : spec_float)
  : bool :=
  existsb
    (fun u =>
       (bool_decide (intra_edges E M u = []) && negb (SFeqb b double_one))
       || (bool_decide (inter_edges E M u = []) && negb (SFeqb b double_zero)))
    (seq 0 (length M)).

(** Modelled from the spec: section 4.1, "Initialization: construct one seed
    clique of clique_size nodes, fully interconnected", all of them in one
    community (the missing Network Grower); the label of that community is
    not fixed by the spec and is left open as [seed_label]. *)
Definition seed_clique (seed_label : Z) (k : nat)
  : list (gset Z) * list (list Z) :=
  ((fun tail => list_to_set (Z.of_nat <$> seq (S tail) (k - S tail))) <$> seq 0 k,
   replicate k [seed_label]).

Section spec_model.
Variable seed_label : Z.
(** The pseudo-random stream and what the spec leaves to the implementer:
    one step of the growth loop and the drawing and rescaling of weights. *)
Variable rng : Type.
Variable srand : Z → rng.
Variable grow_step :
  nat → spec_float → list (gset Z) * list (list Z) * rng → nat →
  list (gset Z) * list (list Z) * rng.
Variable assign_weights :
  list (gset Z) → list (list Z) → spec_float → spec_float → rng →
  list (gmap Z spec_float).

(** Modelled from the spec: section 4.1, the Network Grower: the seed clique,
    then one growth step "for each remaining node index i from clique_size to
    num_nodes - 1" (missing from the sources). *)
Definition Grow (n k : nat) (linkage : spec_float) (s : Z)
  : list (gset Z) * list (list Z) * rng :=
  foldl (grow_step k linkage) (seed_clique seed_label k, srand s) (seq k (n - k)).

(** Modelled from the spec: sections 4 and 7, the missing
    [build_network_klemm]: parameters are checked "before any growth step
    runs", the Network Grower runs, a degenerate topology is refused during
    weight assignment, and otherwise the three containers are filled. *)
Definition build_network_klemm_spec (p : params) (g : graph) : build_outcome :=
  if grower_params_invalid p || weight_params_invalid p
  then BuildThrows InvalidParameter
  else
    let '(E, M, r) :=
      Grow (Z.to_nat (num_nodes p)) (Z.to_nat (clique_size p))
           (clique_linkage p) (seed p) in
    if degenerate E M (beta p) then BuildThrows DegenerateInput
    else BuildReturns
           {| Eout := E; member_list := M;
              Wout := assign_weights E M (muw p) (beta p) r |}.
End spec_model.

(** What lines 39-45 make of the containers, written without the loops. *)
Definition marshalled (g : graph) : py_result :=
  match mapM (weight_of (Wout g)) (edges_of (Eout g)) with
  | Ok ws =>
      PyTuple3
        {| shape := [length (edges_of (Eout g)); 2%nat];
           data := edges_of (Eout g) ≫= edge_cells |}
        ((fun communities : list Z => Some (Some <$> communities)) <$> member_list g)
        {| shape := [length (edges_of (Eout g))];
           data := float32_of_double <$> ws |}
  | Fault f => Faults f
  end.

(** A mantissa with a single bit set. *)
Fixpoint is_pow2 (p : positive) : bool :=
  match p with
  | xH => true
  | xO q => is_pow2 q
  | xI _ => false
  end.

(** ** Concrete inputs *)

Definition double_half : spec_float := S754_finite false 4503599627370496 (-53).
Definition double_two : spec_float := S754_finite false 4503599627370496 (-51).
(** 2^-200 and 1.5 * 2^-150. *)
Definition two_pow_m200 : spec_float := S754_finite false 4503599627370496 (-252).
Definition three_halves_two_pow_m150 : spec_float :=
  S754_finite false 6755399441055744 (-202).

(** Three nodes, the edges (0,1), (0,2), (1,2), and a weight for each. *)
Definition example_Eout : list (gset Z) := [ {[1; 2]}; {[2]}; ∅ ].
Definition example_Wout : list (gmap Z spec_float) :=
  [ {[1 := double_one; 2 := two_pow_m200]};
    {[2 := three_halves_two_pow_m150]}; ∅ ].
Definition example_junk_e : nat → Z := fun _ => 0.
Definition example_junk_w : nat → spec_float := fun _ => S754_nan.

(** A stand-in for the parts of the generator the spec leaves open: no growth
    step is ever taken in the examples, and every edge gets weight 1. *)
Definition example_grow_step (k : nat) (linkage : spec_float)
    (st : list (gset Z) * list (list Z) * unit) (i : nat)
  : list (gset Z) * list (list Z) * unit := st.
Definition example_assign_weights (E : list (gset Z)) (M : list (list Z))
    (mu b : spec_float) (r : unit) : list (gmap Z spec_float) :=
  (fun head_set => gset_to_gmap double_one head_set) <$> E.
Definition example_build : params → graph → build_outcome :=
  build_network_klemm_spec 0 unit (fun _ => ()) example_grow_step
    example_assign_weights.

Definition params_clique_too_large : params :=
  {| num_nodes := 1; clique_size := 3; clique_linkage := double_half;
     muw := double_two; beta := double_zero; seed := 42 |}.
Definition params_beta_too_large : params :=
  {| num_nodes := 3; clique_size := 3; clique_linkage := double_half;
     muw := double_two; beta := double_two; seed := 42 |}.
Definition params_seed_clique_mixed : params :=
  {| num_nodes := 3; clique_size := 3; clique_linkage := double_half;
     muw := double_two; beta := double_half; seed := 42 |}.
Definition params_seed_clique : params :=
  {| num_nodes := 3; clique_size := 3; clique_linkage := double_half;
     muw := double_two; beta := double_zero; seed := 42 |}.

(** 2^128, just above the largest binary32 value, as a [double]. *)
Definition two_pow_128 : spec_float := S754_finite false 4503599627370496 76.

(** The triangle on the nodes 0, 1, 2 with every node holding the set of its
    neighbours. *)
Definition example_neighbours : list (gset Z) := [ {[1; 2]}; {[0; 2]}; {[0; 1]} ].

(** A generator that returns at once and leaves the containers as it got
    them. *)
Definition echo_build (p : params) (g : graph) : build_outcome := BuildReturns g.

(** [example_Wout] with keys and maps that no edge of [example_Eout] uses. *)
Definition example_Wout_padded : list (gmap Z spec_float) :=
  [ {[1 := double_one; 2 := two_pow_m200; 7 := double_two]};
    {[2 := three_halves_two_pow_m150; 0 := double_half]}; {[5 := double_one]};
    {[1 := double_one]} ].

(** * Lemmas *)

(** *** Loops *)

Section loops.
Context {S A : Type}.
Implicit Types (body : S → A → result S).

Lemma for_each_app xs ys body s :
  for_each (xs ++ ys) body s = (s' ← for_each xs body s; for_each ys body s').
Proof.
  revert s. induction xs as [|x xs IH]; intros s; simpl; [done|].
  destruct (body s x) as [s'|f]; simpl; [apply IH|done].
Qed.

Lemma for_each_ext xs body1 body2 s :
  (∀ s x, x ∈ xs → body1 s x = body2 s x) →
  for_each xs body1 s = for_each xs body2 s.
Proof.
  revert s. induction xs as [|x xs IH]; intros s Hb; simpl; [done|].
  rewrite Hb by left. destruct (body2 s x); simpl; [|done].
  apply IH. intros. apply Hb. by right.
Qed.
End loops.

Lemma for_each_fmap {S A B} (f : A → B) xs (body : S → B → result S) s :
  for_each (f <$> xs) body s = for_each xs (fun s x => body s (f x)) s.
Proof.
  revert s. induction xs as [|x xs IH]; intros s; simpl; [done|].
  destruct (body s (f x)); simpl; [apply IH|done].
Qed.

Lemma deque_index_middle {A} (pre suf : list A) x :
  deque_index (pre ++ x :: suf) (length pre) = Ok x.
Proof. unfold deque_index. by rewrite list_lookup_middle. Qed.

(** The loop nest of both array routines visits the edges in the order of
    [edges_of]. *)
Lemma loop_nest_from {S} (body : nat → S → Z → result S) pre suf s :
  for_each (seq (length pre) (length suf))
    (fun st tail =>
       head_set ← deque_index (pre ++ suf) tail;
       for_each (set_iter head_set) (body tail) st) s
  = for_each (edges_from (length pre) suf) (fun st e => body e.1 st e.2) s.
Proof.
  revert pre s. induction suf as [|hs suf IH]; intros pre s; [done|].
  cbn [length seq for_each edges_from].
  rewrite deque_index_middle, for_each_app, for_each_fmap. cbn.
  destruct (for_each (set_iter hs) _ s) as [s'|f] eqn:E; cbn; [|done].
  specialize (IH (pre ++ [hs]) s').
  rewrite length_app, <- app_assoc in IH. cbn in IH.
  replace (length pre + 1)%nat with (Datatypes.S (length pre)) in IH by lia.
  exact IH.
Qed.

Lemma loop_nest {S} (body : nat → S → Z → result S) Eout s :
  for_each (seq 0 (length Eout))
    (fun st tail =>
       head_set ← deque_index Eout tail;
       for_each (set_iter head_set) (body tail) st) s
  = for_each (edges_of Eout) (fun st e => body e.1 st e.2) s.
Proof. apply (loop_nest_from body [] Eout s). Qed.

Lemma count_edges_from n Eout k :
  foldl (fun num_edges head_set =>
           foldl (fun num_edges (_ : Z) => Datatypes.S num_edges) num_edges (set_iter head_set))
        n Eout = (n + length (edges_from k Eout))%nat.
Proof.
  revert n k. induction Eout as [|hs Eout IH]; intros n k; simpl; [lia|].
  rewrite (IH _ (Datatypes.S k)), length_app, length_fmap.
  assert (∀ (l : list Z) m, foldl (fun a (_ : Z) => Datatypes.S a) m l = (m + length l)%nat) as ->.
  { induction l; intros; simpl; [lia|]. rewrite IHl. lia. }
  lia.
Qed.

Lemma count_edges_length Eout : count_edges Eout = length (edges_of Eout).
Proof. apply (count_edges_from 0%nat Eout 0%nat). Qed.

Lemma store_middle {A} (done rest : list A) old v :
  store (done ++ old :: rest) (length done) v = Ok (done ++ v :: rest).
Proof.
  unfold store. rewrite decide_True by (rewrite length_app; simpl; lia).
  f_equal. rewrite insert_app_r_alt by lia. by rewrite Nat.sub_diag.
Qed.

Lemma store_full {A} (done : list A) v :
  store done (length done) v = Fault buffer_overrun.
Proof. unfold store. by rewrite decide_False by lia. Qed.

Lemma fill_edges es : ∀ done rest,
  (2 * length es ≤ length rest)%nat →
  for_each es
    (fun st e =>
       (let '(buf, edge_index) := st in
        fun head =>
          buf ← store buf edge_index (uint64_of_size_t e.1);
          buf ← store buf (edge_index + 1) (uint64_of_int head);
          Ok (buf, (edge_index + 2)%nat)) e.2)
    (done ++ rest, length done)
  = Ok (done ++ (es ≫= edge_cells) ++ drop (2 * length es) rest,
        (length done + 2 * length es)%nat).
Proof.
  induction es as [|e es IH]; intros done rest Hlen.
  { simpl. by rewrite Nat.add_0_r. }
  destruct rest as [|r0 [|r1 rest]]; simpl in Hlen; try lia.
  cbn [for_each]. rewrite store_middle. cbn [mbind result_bind].
  replace (done ++ uint64_of_size_t e.1 :: r1 :: rest)
    with ((done ++ [uint64_of_size_t e.1]) ++ r1 :: rest) by by rewrite <- app_assoc.
  replace (length done + 1)%nat with (length (done ++ [uint64_of_size_t e.1]))
    by (rewrite length_app; simpl; lia).
  rewrite store_middle. cbn [mbind result_bind].
  specialize (IH (done ++ [uint64_of_size_t e.1; uint64_of_int e.2]) rest ltac:(lia)).
  rewrite length_app in IH. cbn [length] in IH.
  rewrite <- !app_assoc in *. cbn [app] in *.
  rewrite IH. f_equal. f_equal; [|cbn [length]; lia].
  f_equal. cbn [mbind list_bind edge_cells app]. f_equal. f_equal. f_equal.
  replace (2 * length (e :: es))%nat with (2 + 2 * length es)%nat by (cbn [length]; lia).
  reflexivity.
Qed.

Lemma length_bind_cells es : length (es ≫= edge_cells) = (2 * length es)%nat.
Proof. induction es as [|e es IH]; [done|]. cbn [mbind list_bind] in *. rewrite length_app, IH. simpl. lia. Qed.

Lemma length_junk {A} (junk : nat → A) dims :
  length (data (PyArray_SimpleNew junk dims)) = foldr Nat.mul 1%nat dims.
Proof. unfold PyArray_SimpleNew. cbn. by rewrite length_fmap, length_seq. Qed.

Lemma ConvertEdge_eq junk Eout :
  ConvertEdgeDequeToNumpyArray junk Eout
  = Ok {| shape := [length (edges_of Eout); 2%nat];
          data := edges_of Eout ≫= edge_cells |}.
Proof.
  unfold ConvertEdgeDequeToNumpyArray.
  rewrite (loop_nest (fun tail '(buf, edge_index) head =>
              buf ← store buf edge_index (uint64_of_size_t tail);
              buf ← store buf (edge_index + 1) (uint64_of_int head);
              Ok (buf, (edge_index + 2)%nat)) Eout).
  pose proof (fill_edges (edges_of Eout) [] (data (PyArray_SimpleNew junk [count_edges Eout; 2%nat]))) as H.
  cbn [app length] in H. rewrite H.
  2:{ rewrite length_junk, count_edges_length. cbn. lia. }
  cbn [mbind result_bind]. rewrite drop_ge, app_nil_r.
  2:{ rewrite length_junk, count_edges_length. cbn. lia. }
  cbn. by rewrite count_edges_length.
Qed.

Lemma mapM_Ok_Forall2 {A B} (f : A → result B) xs ys :
  mapM f xs = Ok ys ↔ Forall2 (fun x y => f x = Ok y) xs ys.
Proof.
  revert ys. induction xs as [|x xs IH]; intros ys; cbn.
  { split; [intros [= <-]; constructor|by inversion 1]. }
  split.
  - destruct (f x) as [y|] eqn:E; cbn; [|done].
    destruct (mapM f xs) as [ys'|] eqn:E'; cbn; [|done].
    intros [= <-]. constructor; [done|by apply IH].
  - inversion 1 as [|? y ? ys' Hy Hys]; subst. rewrite Hy. cbn.
    apply IH in Hys. rewrite Hys. done.
Qed.

Lemma fill_weights Wout es : ∀ done rest,
  (length es ≤ length rest)%nat →
  for_each es
    (fun st e =>
       (let '(buf, edge_index) := st in
        fun head =>
          weights ← deque_index Wout e.1;
          w ← map_at weights head;
          buf ← store buf edge_index (float32_of_double w);
          Ok (buf, (edge_index + 1)%nat)) e.2)
    (done ++ rest, length done)
  = (ws ← mapM (weight_of Wout) es;
     Ok (done ++ (float32_of_double <$> ws) ++ drop (length es) rest,
         (length done + length es)%nat)).
Proof.
  induction es as [|e es IH]; intros done rest Hlen.
  { cbn. by rewrite Nat.add_0_r. }
  destruct rest as [|r0 rest]; simpl in Hlen; try lia.
  cbn [for_each mapM].
  assert (weight_of Wout e = (weights ← deque_index Wout e.1; map_at weights e.2)) as -> by done.
  destruct (deque_index Wout e.1) as [weights|f]; cbn [mbind result_bind]; [|done].
  destruct (map_at weights e.2) as [w|f]; cbn [mbind result_bind]; [|done].
  rewrite store_middle. cbn [mbind result_bind].
  specialize (IH (done ++ [float32_of_double w]) rest ltac:(lia)).
  rewrite length_app in IH. cbn [length] in IH.
  rewrite <- !app_assoc in IH. cbn [app] in IH.
  rewrite IH.
  destruct (mapM (weight_of Wout) es) as [ws|f]; cbn; [|done].
  rewrite <- app_assoc. cbn [app]. do 2 f_equal. lia.
Qed.

Lemma ConvertWeight_eq junk Wout Eout :
  ConvertWeightMapToNumpyArray junk Wout Eout
  = (ws ← mapM (weight_of Wout) (edges_of Eout);
     Ok {| shape := [length (edges_of Eout)];
           data := float32_of_double <$> ws |}).
Proof.
  unfold ConvertWeightMapToNumpyArray.
  rewrite (loop_nest (fun tail '(buf, edge_index) head =>
              weights ← deque_index Wout tail;
              w ← map_at weights head;
              buf ← store buf edge_index (float32_of_double w);
              Ok (buf, (edge_index + 1)%nat)) Eout).
  pose proof (fill_weights Wout (edges_of Eout) []
                (data (PyArray_SimpleNew junk [count_edges Eout]))) as H.
  cbn [app length] in H. rewrite H.
  2:{ rewrite length_junk, count_edges_length. cbn. lia. }
  destruct (mapM (weight_of Wout) (edges_of Eout)) as [ws|f];
    cbn [mbind result_bind]; [|done].
  rewrite drop_ge, app_nil_r.
  2:{ rewrite length_junk, count_edges_length. cbn. lia. }
  cbn. by rewrite count_edges_length.
Qed.

(** *** Iteration over a [std::set<int>] *)

Lemma set_iter_perm (s : gset Z) : set_iter s ≡ₚ elements s.
Proof. apply merge_sort_Permutation. Qed.

Lemma elem_of_set_iter (s : gset Z) h : h ∈ set_iter s ↔ h ∈ s.
Proof. by rewrite set_iter_perm, elem_of_elements. Qed.

Lemma length_set_iter (s : gset Z) : length (set_iter s) = size s.
Proof. by rewrite set_iter_perm. Qed.

Lemma NoDup_set_iter (s : gset Z) : NoDup (set_iter s).
Proof. rewrite set_iter_perm. apply NoDup_elements. Qed.

Lemma StronglySorted_le_lt (l : list Z) :
  StronglySorted Z.le l → NoDup l → StronglySorted Z.lt l.
Proof.
  induction 1 as [|x l Hl IH Hx]; intros Hnd; [constructor|].
  apply NoDup_cons in Hnd as [Hx' Hnd]. constructor; [auto|].
  apply Forall_forall. intros y Hy. rewrite Forall_forall in Hx.
  specialize (Hx y Hy). assert (x ≠ y) by (intros ->; done). lia.
Qed.

Lemma set_iter_ascending (s : gset Z) : StronglySorted Z.lt (set_iter s).
Proof.
  apply StronglySorted_le_lt; [|apply NoDup_set_iter].
  apply (StronglySorted_merge_sort Z.le).
Qed.

Lemma set_iter_list_to_set (l : list Z) :
  StronglySorted Z.lt l → set_iter (list_to_set l) = l.
Proof.
  intros Hl.
  assert (NoDup l) as Hnd.
  { induction Hl as [|x l Hl IH Hx]; constructor; [|done].
    rewrite Forall_forall in Hx. intros Hin%Hx. lia. }
  apply (StronglySorted_unique Z.le).
  - apply (StronglySorted_merge_sort Z.le).
  - clear Hnd. induction Hl as [|x l Hl IH Hx]; constructor; [done|].
    eapply Forall_impl; [exact Hx|]. intros; simpl in *; lia.
  - rewrite set_iter_perm. by apply elements_list_to_set.
Qed.

(** *** The edges in visiting order *)

Lemma elem_of_edges_from k Eout t h :
  (t, h) ∈ edges_from k Eout ↔
  ∃ i hs, t = (k + i)%nat ∧ Eout !! i = Some hs ∧ h ∈ hs.
Proof.
  revert k. induction Eout as [|hs0 Eout IH]; intros k; cbn [edges_from].
  { split; [by intros ?%not_elem_of_nil|by intros (?&?&?&?&?)]. }
  rewrite elem_of_app, list_elem_of_fmap, IH. split.
  - intros [(h'&[= -> ->]&Hh)|(i&hs&->&Hi&Hh)].
    + exists 0%nat, hs0. rewrite elem_of_set_iter in Hh. split; [lia|done].
    + exists (Datatypes.S i), hs. split; [lia|done].
  - intros ([|i]&hs&->&Hi&Hh); cbn in Hi.
    + left. injection Hi as ->. exists h. rewrite elem_of_set_iter.
      split; [f_equal; lia|done].
    + right. exists i, hs. split; [lia|done].
Qed.

Lemma elem_of_edges_of Eout t h :
  (t, h) ∈ edges_of Eout ↔ ∃ hs, Eout !! t = Some hs ∧ h ∈ hs.
Proof.
  unfold edges_of. rewrite elem_of_edges_from. split.
  - intros (i&hs&->&?&?). eauto.
  - intros (hs&?&?). exists t, hs. done.
Qed.

Lemma edges_from_sorted k Eout : StronglySorted edge_lt (edges_from k Eout).
Proof.
  revert k. induction Eout as [|hs Eout IH]; intros k; cbn [edges_from].
  { constructor. }
  apply StronglySorted_app; split_and!.
  - intros [t1 h1] [t2 h2] (h&[= -> ->]&_)%list_elem_of_fmap
      (i&?&->&_&_)%elem_of_edges_from.
    left. simpl. lia.
  - eapply (StronglySorted_fmap _ Z.lt edge_lt); [|apply set_iter_ascending].
    intros x y Hxy. right. done.
  - apply IH.
Qed.

Lemma edges_of_sorted Eout : StronglySorted edge_lt (edges_of Eout).
Proof. apply edges_from_sorted. Qed.

Lemma StronglySorted_irrefl_NoDup {A} (R : relation A) l :
  (∀ x, ¬ R x x) → StronglySorted R l → NoDup l.
Proof.
  intros Hirr. induction 1 as [|x l Hl IH Hx]; constructor; [|done].
  rewrite Forall_forall in Hx. intros Hin%Hx. by eapply Hirr.
Qed.

Lemma NoDup_edges_of Eout : NoDup (edges_of Eout).
Proof.
  eapply StronglySorted_irrefl_NoDup; [|apply edges_of_sorted].
  intros [t h] [?|[_ ?]]; simpl in *; lia.
Qed.

Lemma length_edges_from k Eout :
  length (edges_from k Eout) = sum_list_with size Eout.
Proof.
  revert k. induction Eout as [|hs Eout IH]; intros k; cbn; [done|].
  by rewrite length_app, length_fmap, length_set_iter, IH.
Qed.

Lemma length_edges_of Eout : length (edges_of Eout) = sum_list_with size Eout.
Proof. apply length_edges_from. Qed.

(** *** Rounding *)

Lemma iter_pos_inv {A} (P : A → Prop) (f : A → A) :
  (∀ x, P x → P (f x)) → ∀ n x, P x → P (SpecFloat.iter_pos f n x).
Proof.
  intros Hf. induction n as [n IH|n IH|]; intros x Hx; cbn; auto.
Qed.

Lemma iter_pos_nat {A} (f : A → A) n x :
  SpecFloat.iter_pos f n x = Nat.iter (Pos.to_nat n) f x.
Proof.
  revert x. induction n as [n IH|n IH|]; intros x; cbn [SpecFloat.iter_pos].
  - rewrite !IH, Pos2Nat.inj_xI. 
    replace (Datatypes.S (2 * Pos.to_nat n)) with (Pos.to_nat n + (Pos.to_nat n + 1))%nat by lia.
    rewrite !Nat.iter_add. done.
  - rewrite !IH, Pos2Nat.inj_xO.
    replace (2 * Pos.to_nat n)%nat with (Pos.to_nat n + Pos.to_nat n)%nat by lia.
    by rewrite Nat.iter_add.
  - done.
Qed.

Lemma shr_1_nonneg mrs : 0 <= shr_m mrs → 0 <= shr_m (shr_1 mrs).
Proof. destruct mrs as [[|[p|p|]|p] r s]; cbn; lia. Qed.

Lemma shr_nonneg mrs e n : 0 <= shr_m mrs → 0 <= shr_m (shr mrs e n).1.
Proof.
  intros H. destruct n as [|p|p]; cbn; [done| |done].
  by apply (iter_pos_inv (fun x => 0 <= shr_m x)); [apply shr_1_nonneg|].
Qed.

Lemma shr_fexp_nonneg prec emax m e l :
  0 <= m → 0 <= shr_m (shr_fexp prec emax m e l).1.
Proof.
  intros H. unfold shr_fexp. apply shr_nonneg.
  destruct l as [|[]]; done.
Qed.

Lemma round_nearest_even_nonneg m l : 0 <= m → 0 <= round_nearest_even m l.
Proof. destruct l as [|[]]; cbn; [done| |done|lia]. destruct (Z.even m); lia. Qed.

Lemma binary_round_aux_sign prec emax s m e l :
  0 <= m →
  match binary_round_aux prec emax s m e l with
  | S754_zero s' | S754_infinity s' | S754_finite s' _ _ => s' = s
  | S754_nan => False
  end.
Proof.
  intros Hm. unfold binary_round_aux.
  pose proof (shr_fexp_nonneg prec emax m e l Hm) as H1.
  destruct (shr_fexp prec emax m e l) as [mrs' e'].
  pose proof (shr_fexp_nonneg prec emax
                (round_nearest_even (shr_m mrs') (loc_of_shr_record mrs')) e' loc_Exact
                (round_nearest_even_nonneg _ _ H1)) as H2.
  destruct (shr_fexp prec emax _ e' loc_Exact) as [mrs'' e''].
  cbn in H2. destruct (shr_m mrs'') as [|p|p]; [done| |lia].
  by destruct (e'' <=? emax - prec).
Qed.

Lemma binary_round_sign prec emax s m e :
  match binary_round prec emax s m e with
  | S754_zero s' | S754_infinity s' | S754_finite s' _ _ => s' = s
  | S754_nan => False
  end.
Proof.
  unfold binary_round. destruct (shl_align _ _ _) as [mz ez].
  by apply binary_round_aux_sign.
Qed.

Lemma float32_of_positive d :
  positive_real d = true → not_below_zero (float32_of_double d) = true.
Proof.
  destruct d as [| | |[] m e]; try done. intros _. cbn [float32_of_double].
  pose proof (binary_round_sign 24 128 false m e) as H.
  by destruct (binary_round 24 128 false m e) as [[]|[]| |[] ? ?].
Qed.

(** *** Underflow of the narrowing conversion *)

Lemma digits2_pos_size p : digits2_pos p = Pos.size p.
Proof. induction p; cbn; by f_equal. Qed.

Lemma shr_1_flush p : ∀ r s,
  ∃ s', Nat.iter (Pos.to_nat (digits2_pos p)) shr_1
          {| shr_m := Zpos p; shr_r := r; shr_s := s |}
        = {| shr_m := 0; shr_r := true; shr_s := s' |}.
Proof.
  induction p as [p IH|p IH|]; intros r s; cbn [digits2_pos].
  - rewrite Pos2Nat.inj_succ, Nat.iter_succ_r. cbn [shr_1]. apply IH.
  - rewrite Pos2Nat.inj_succ, Nat.iter_succ_r. cbn [shr_1]. apply IH.
  - cbn. eauto.
Qed.

Lemma shr_1_flushed n :
  Nat.iter n shr_1 {| shr_m := 0; shr_r := false; shr_s := true |}
  = {| shr_m := 0; shr_r := false; shr_s := true |}.
Proof. induction n as [|n IH]; [done|]. by rewrite Nat.iter_succ, IH. Qed.

Lemma shr_1_beyond p k :
  (Pos.to_nat (digits2_pos p) < k)%nat →
  Nat.iter k shr_1 {| shr_m := Zpos p; shr_r := false; shr_s := false |}
  = {| shr_m := 0; shr_r := false; shr_s := true |}.
Proof.
  intros Hk.
  replace k with ((k - Datatypes.S (Pos.to_nat (digits2_pos p)))
                  + (1 + Pos.to_nat (digits2_pos p)))%nat by lia.
  rewrite !Nat.iter_add.
  destruct (shr_1_flush p false false) as [s' ->].
  rewrite Nat.iter_succ. cbn [Nat.iter shr_1 orb]. change (Nat.iter 0 shr_1 ?x) with x.
  apply shr_1_flushed.
Qed.

Lemma float32_far_below m e :
  Zpos (digits2_pos m) + e <= -150 →
  binary_round 24 128 false m e = S754_zero false.
Proof.
  intros Hd. unfold binary_round.
  assert (fexp 24 128 (Zpos (digits2_pos m) + e) = -149) as Hf.
  { unfold fexp, emin. lia. }
  rewrite Hf. unfold shl_align.
  destruct (-149 - e) as [|q|q] eqn:Hq; try lia.
  unfold binary_round_aux, shr_fexp. cbn [Zdigits2].
  rewrite Hf, Hq. cbn [shr shr_record_of_loc].
  rewrite iter_pos_nat, shr_1_beyond by lia.
  cbn [shr_m loc_of_shr_record round_nearest_even Zdigits2].
  replace (e + Z.pos q) with (-149) by lia. done.
Qed.

Lemma float32_underflow d :
  is_double d = true → positive_real d = true →
  SFleb d two_pow_m150 = true →
  float32_of_double d = S754_zero false.
Proof.
  destruct d as [| | |[] m e]; try (intros; discriminate). intros Hv _ Hle.
  cbn [float32_of_double].
  unfold is_double, valid_binary, bounded, canonical_mantissa in Hv.
  apply andb_prop in Hv as [Hc _]. apply Z.eqb_eq in Hc.
  unfold fexp, emin in Hc.
  unfold SFleb, SFcompare, two_pow_m150 in Hle.
  destruct (Z.compare_spec e (-202)) as [->|He|He].
  - assert (Zpos (digits2_pos m) = 53) as Hd by lia.
    assert (m = 4503599627370496)%positive as ->; [|by vm_compute].
    pose proof (Pos.size_le m) as Hs. rewrite <- digits2_pos_size in Hs.
    injection Hd as Hd. rewrite Hd in Hs.
    change (2 ^ 53)%positive with 9007199254740992%positive in Hs.
    rewrite Pos.compare_cont_spec in Hle.
    destruct (Pos.compare_spec m 4503599627370496) as [?|Hlt|?];
      [assumption| |discriminate].
    apply Pos2Z.pos_le_pos in Hs. apply Pos2Z.pos_lt_pos in Hlt.
    rewrite Pos2Z.inj_xO in Hs. clear -Hs Hlt. lia.
  - apply float32_far_below. lia.
  - discriminate.
Qed.

Lemma shr_1_flush_sticky p : ∀ r s,
  Nat.iter (Pos.to_nat (digits2_pos p)) shr_1
    {| shr_m := Zpos p; shr_r := r; shr_s := s |}
  = {| shr_m := 0; shr_r := true; shr_s := r || s || negb (is_pow2 p) |}.
Proof.
  induction p as [p IH|p IH|]; intros r s; cbn [digits2_pos is_pow2].
  - rewrite Pos2Nat.inj_succ, Nat.iter_succ_r. cbn [shr_1]. rewrite IH.
    by destruct r, s.
  - rewrite Pos2Nat.inj_succ, Nat.iter_succ_r. cbn [shr_1]. rewrite IH.
    by destruct r, s.
  - cbn. by destruct r, s.
Qed.

Lemma is_pow2_value p :
  is_pow2 p = true → Zpos p = 2 ^ (Zpos (digits2_pos p) - 1).
Proof.
  induction p as [p IH|p IH|]; cbn [is_pow2 digits2_pos]; intros H; [done| |done].
  rewrite Pos2Z.inj_xO, (IH H), Pos2Z.inj_succ.
  replace (Z.succ (Zpos (digits2_pos p)) - 1) with (Z.succ (Zpos (digits2_pos p) - 1)) by lia.
  rewrite Z.pow_succ_r; [done|]. pose proof (Pos2Z.is_pos (digits2_pos p)). lia.
Qed.

Lemma float32_just_below m :
  Zpos (digits2_pos m) = 53 → is_pow2 m = false →
  binary_round 24 128 false m (-202) = S754_finite false 1 (-149).
Proof.
  intros Hd Hp. unfold binary_round.
  assert (fexp 24 128 (Zpos (digits2_pos m) + -202) = -149) as Hf.
  { unfold fexp, emin. lia. }
  rewrite Hf. unfold shl_align. change (-149 - -202) with 53.
  unfold binary_round_aux, shr_fexp. cbn [Zdigits2].
  rewrite Hf. change (-149 - -202) with 53. cbn [shr shr_record_of_loc].
  rewrite iter_pos_nat.
  replace (Pos.to_nat 53) with (Pos.to_nat (digits2_pos m)) by (injection Hd as ->; done).
  rewrite shr_1_flush_sticky, Hp. reflexivity.
Qed.

Lemma float32_round_up d :
  is_double d = true →
  SFltb two_pow_m150 d = true → SFltb d two_pow_m149 = true →
  float32_of_double d = S754_finite false 1 (-149).
Proof.
  destruct d as [[]|[]| |[] m e]; try (intros; discriminate). intros Hv Hgt Hlt.
  cbn [float32_of_double].
  unfold is_double, valid_binary, bounded, canonical_mantissa in Hv.
  apply andb_prop in Hv as [Hc _]. apply Z.eqb_eq in Hc.
  unfold fexp, emin in Hc.
  unfold SFltb, SFcompare, two_pow_m150, two_pow_m149 in Hgt, Hlt.
  destruct (Z.compare_spec (-202) e) as [<-|He|He]; [| |discriminate].
  - assert (Zpos (digits2_pos m) = 53) as Hd by lia.
    apply float32_just_below; [done|].
    destruct (is_pow2 m) eqn:Hp; [|done].
    apply is_pow2_value in Hp. rewrite Hd in Hp. 
    change (2 ^ (53 - 1)) with 4503599627370496 in Hp. injection Hp as ->.
    rewrite Pos.compare_cont_refl in Hgt. discriminate.
  - destruct (Z.compare_spec e (-201)) as [->|He'|He']; [| lia |discriminate].
    assert (Zpos (digits2_pos m) = 53) as Hd by lia.
    rewrite Pos.compare_cont_spec in Hlt.
    destruct (Pos.compare_spec m 4503599627370496) as [?|Hm|?]; try discriminate.
    pose proof (Pos.size_le m) as Hs. rewrite <- digits2_pos_size in Hs.
    injection Hd as Hd. rewrite Hd in Hs.
    change (2 ^ 53)%positive with 9007199254740992%positive in Hs.
    apply Pos2Z.pos_le_pos in Hs. apply Pos2Z.pos_lt_pos in Hm.
    rewrite Pos2Z.inj_xO in Hs. clear -Hs Hm. lia.
Qed.

(** *** Rows of the edge array *)

Lemma cells_lookup es i :
  (es ≫= edge_cells) !! (2 * i)%nat = (fun e => uint64_of_size_t e.1) <$> es !! i
  ∧ (es ≫= edge_cells) !! (2 * i + 1)%nat = (fun e => uint64_of_int e.2) <$> es !! i.
Proof.
  revert i. induction es as [|e es IH]; intros i; [done|].
  destruct i as [|i]; [done|].
  replace (2 * Datatypes.S i)%nat with (Datatypes.S (Datatypes.S (2 * i))) by lia.
  apply (IH i).
Qed.

Lemma row_of_edges junk Eout edge_array i :
  ConvertEdgeDequeToNumpyArray junk Eout = Ok edge_array →
  row edge_array i
  = (fun e => (uint64_of_size_t e.1, uint64_of_int e.2)) <$> edges_of Eout !! i.
Proof.
  rewrite ConvertEdge_eq. intros [= <-]. unfold row. cbn [data].
  destruct (cells_lookup (edges_of Eout) i) as [-> ->].
  by destruct (edges_of Eout !! i).
Qed.

Lemma weight_of_Ok Wout e w :
  weight_of Wout e = Ok w ↔
  ∃ weights, Wout !! e.1 = Some weights ∧ weights !! e.2 = Some w.
Proof.
  unfold weight_of, deque_index, map_at.
  destruct (Wout !! e.1) as [weights|]; cbn.
  - destruct (weights !! e.2) as [w'|] eqn:E; cbn.
    + split; [intros [= <-]; eauto|]. intros (?&[= <-]&?). congruence.
    + split; [done|]. intros (?&[= <-]&?). congruence.
  - split; [done|]. by intros (?&?&?).
Qed.

Lemma ConvertWeight_Ok junk Wout Eout weight_array :
  ConvertWeightMapToNumpyArray junk Wout Eout = Ok weight_array ↔
  ∃ ws, Forall2 (fun e w => weight_of Wout e = Ok w) (edges_of Eout) ws
        ∧ weight_array = {| shape := [length (edges_of Eout)];
                            data := float32_of_double <$> ws |}.
Proof.
  rewrite ConvertWeight_eq.
  destruct (mapM (weight_of Wout) (edges_of Eout)) as [ws|f] eqn:E; cbn.
  - apply mapM_Ok_Forall2 in E. split.
    + intros [= <-]. eauto.
    + intros (ws'&H&->). do 2 f_equal.
      apply mapM_Ok_Forall2 in E, H. congruence.
  - split; [done|]. intros (ws&H%mapM_Ok_Forall2&_). congruence.
Qed.

Lemma uint64_of_int_small x : 0 <= x → int_range x → uint64_of_int x = x.
Proof. unfold int_range, uint64_of_int. intros ? ?. apply Z.mod_small. lia. Qed.

Lemma keys_present_check (Wout : list (gmap Z spec_float)) (Eout : list (gset Z)) :
  forallb (fun e => match weight_of Wout e with Ok _ => true | Fault _ => false end)
          (edges_of Eout) = true →
  ∀ tail head_set weights head,
    Eout !! tail = Some head_set → Wout !! tail = Some weights →
    head ∈ head_set → is_Some (weights !! head).
Proof.
  intros H tail hs weights head Hhs Hw Hh. rewrite forallb_forall in H.
  specialize (H (tail, head)). destruct (weight_of Wout (tail, head)) as [w|] eqn:E.
  - apply weight_of_Ok in E as (weights'&?&?). cbn in *. simplify_eq. eauto.
  - discriminate H. apply list_elem_of_In, elem_of_edges_of. eauto.
Qed.

(** *** The member tuple *)

Lemma fill_tuple {A B} (f : A → result B) (suf : list A) : ∀ pre done,
  length done = length pre →
  for_each (seq (length pre) (length suf))
    (fun t i => x ← deque_index (pre ++ suf) i; y ← f x;
                Ok (PyTuple_SetItem t i y))
    (done ++ replicate (length suf) None)
  = (ys ← mapM f suf; Ok (done ++ (Some <$> ys))).
Proof.
  unfold PyTuple_SetItem.
  induction suf as [|x suf IH]; intros pre done Hlen.
  { cbn. done. }
  cbn [length seq for_each replicate mapM].
  rewrite deque_index_middle. cbn [mbind result_bind].
  destruct (f x) as [y|]; cbn [mbind result_bind]; [|done].
  rewrite <- Hlen.
  rewrite insert_app_r_alt, Nat.sub_diag by lia. cbn [insert list_insert].
  specialize (IH (pre ++ [x]) (done ++ [Some y])).
  rewrite !length_app, <- !app_assoc in IH. cbn [length app] in IH.
  rewrite Hlen in *. rewrite Nat.add_1_r in IH. rewrite IH by lia.
  destruct (mapM f suf) as [ys|]; cbn; [|done].
  by rewrite <- app_assoc.
Qed.

Lemma mapM_Ok_id {A} (l : list A) : mapM (M:=result) Ok l = Ok l.
Proof. induction l as [|x l IH]; [done|]. cbn. by rewrite IH. Qed.

Lemma fill_communities (communities : list Z) :
  for_each (seq 0 (length communities))
    (fun communities_tuple iii =>
       label ← deque_index communities iii;
       Ok (PyTuple_SetItem communities_tuple iii label))
    (PyTuple_New (length communities))
  = Ok (Some <$> communities).
Proof.
  pose proof (fill_tuple Ok communities [] [] eq_refl) as H.
  cbn [app length] in H. rewrite mapM_Ok_id in H. cbn [mbind result_bind] in H.
  rewrite <- H. apply for_each_ext. intros t iii _.
  by destruct (deque_index communities iii).
Qed.

Lemma ConvertMember_eq (member_list : list (list Z)) :
  ConvertMemberDequeToTuple member_list
  = Ok ((fun communities : list Z => Some (Some <$> communities)) <$> member_list).
Proof.
  unfold ConvertMemberDequeToTuple.
  pose proof (fill_tuple (fun communities : list Z => Ok (Some <$> communities))
                member_list [] [] eq_refl) as H.
  cbn [app length] in H.
  assert (∀ l : list (list Z),
            mapM (M:=result) (fun c : list Z => Ok (Some <$> c)) l
            = Ok ((fun c : list Z => Some <$> c) <$> l)) as Hm.
  { induction l as [|c l IH]; [done|]. cbn. by rewrite IH. }
  rewrite Hm in H. cbn [mbind result_bind] in H.
  rewrite <- list_fmap_compose in H. cbn [app] in H.
  etrans; [|exact H].
  unfold PyTuple_New at 1. rewrite length_replicate.
  apply for_each_ext. intros t member _.
  destruct (deque_index member_list member) as [communities|]; cbn; [|done].
  unfold PyTuple_New at 1. rewrite length_replicate.
  by rewrite fill_communities.
Qed.

(** *** The entry point *)

Lemma GenerateKlemmGraph_eq build junk_e junk_w p :
  GenerateKlemmGraph build junk_e junk_w (Some p)
  = match build p empty_graph with
    | BuildThrows e => ([ev_containers; ev_build], Propagates e)
    | BuildReturns g => ([ev_containers; ev_build; ev_marshal], marshalled g)
    end.
Proof.
  unfold GenerateKlemmGraph, marshalled.
  destruct (build p empty_graph) as [g|e]; [|done].
  rewrite ConvertEdge_eq, ConvertWeight_eq, ConvertMember_eq.
  cbn [mbind result_bind].
  by destruct (mapM (weight_of (Wout g)) (edges_of (Eout g))).
Qed.


(** *** Faults and order *)

Lemma mapM_Fault {A B} (f : A → result B) xs e :
  mapM f xs = Fault e → ∃ x, x ∈ xs ∧ f x = Fault e.
Proof.
  induction xs as [|x xs IH]; cbn; [done|].
  destruct (f x) as [y|e'] eqn:E; cbn.
  - destruct (mapM f xs) as [ys|e'']; cbn; [done|].
    intros [= ->]. destruct IH as (x'&?&?); [done|]. exists x'. split; [by right|done].
  - intros [= ->]. exists x. split; [by left|done].
Qed.

Lemma StronglySorted_lookup_lt {A} (R : relation A) l i j x y :
  StronglySorted R l → (i < j)%nat → l !! i = Some x → l !! j = Some y → R x y.
Proof.
  intros Hl. revert i j. induction Hl as [|z l Hl IH Hz]; intros i j Hij Hi Hj; [done|].
  destruct j as [|j]; [lia|]. cbn in Hj. destruct i as [|i]; cbn in Hi.
  - injection Hi as ->. rewrite Forall_forall in Hz. apply Hz.
    by eapply list_elem_of_lookup_2.
  - apply (IH i j); [lia|done..].
Qed.

Lemma heads_check (Eout : list (gset Z)) :
  forallb (fun e => (0 <=? e.2) && (e.2 <? 2 ^ 31)) (edges_of Eout) = true →
  ∀ tail head_set head,
    Eout !! tail = Some head_set → head ∈ head_set → 0 <= head ∧ int_range head.
Proof.
  intros H tail hs head Hhs Hh. rewrite forallb_forall in H.
  assert ((tail, head) ∈ edges_of Eout) as Hin by (apply elem_of_edges_of; eauto).
  specialize (H _ (proj1 (list_elem_of_In _ _) Hin)). cbn in H.
  unfold int_range. lia.
Qed.

(** * The specification, statement by statement *)



(** C2, as the code has it.  The weight array is parallel to the edge array:
    if row [i] of the edge array holds [(tail, head)], then [Wout[tail]] has
    an entry for [head], and entry [i] of the weight array is that weight
    narrowed to binary32.  For a positive weight the entry is never negative
    and never NaN: it is +0, a positive finite value or +infinity. *)
Theorem weight_array_parallel_to_edge_array (junk_e : nat → Z)
    (junk_w : nat → spec_float) (Wout : list (gmap Z spec_float))
    (Eout : list (gset Z)) (edge_array : ndarray Z)
    (weight_array : ndarray spec_float) (i : nat) (t h : Z) :
  ConvertEdgeDequeToNumpyArray junk_e Eout = Ok edge_array →
  ConvertWeightMapToNumpyArray junk_w Wout Eout = Ok weight_array →
  row edge_array i = Some (t, h) →
  ∃ tail head head_set weights w,
    Eout !! tail = Some head_set ∧ head ∈ head_set ∧
    t = uint64_of_size_t tail ∧ h = uint64_of_int head ∧
    Wout !! tail = Some weights ∧ weights !! head = Some w ∧
    data weight_array !! i = Some (float32_of_double w) ∧
    (positive_real w = true → not_below_zero (float32_of_double w) = true).
Proof.
  intros He (ws&Hws&->)%ConvertWeight_Ok Hrow.
  rewrite (row_of_edges _ _ _ _ He) in Hrow.
  destruct (edges_of Eout !! i) as [[tail head]|] eqn:Hi; [|done].
  injection Hrow as <- <-.
  destruct (Forall2_lookup_l _ _ _ _ _ Hws Hi) as (w&Hwi&Hw).
  apply weight_of_Ok in Hw as (weights&Hweights&Hhead).
  apply list_elem_of_lookup_2, elem_of_edges_of in Hi as (hs&Hhs&Hh).
  exists tail, head, hs, weights, w. split_and!; try done.
  - cbn. by rewrite list_lookup_fmap, Hwi.
  - apply float32_of_positive.
Qed.

(** The statement of C2 at row 0 of the three-node example. *)
Lemma weight_array_parallel_witness :
  ∃ tail head head_set weights w,
    example_Eout !! tail = Some head_set ∧ head ∈ head_set ∧
    0 = uint64_of_size_t tail ∧ 1 = uint64_of_int head ∧
    example_Wout !! tail = Some weights ∧ weights !! head = Some w ∧
    [S754_finite false 8388608 (-23); S754_zero false; S754_finite false 1 (-149)]
      !! 0%nat = Some (float32_of_double w) ∧
    (positive_real w = true → not_below_zero (float32_of_double w) = true).
Proof.
  apply (weight_array_parallel_to_edge_array example_junk_e example_junk_w
           example_Wout example_Eout
           {| shape := [3%nat; 2%nat]; data := [0; 1; 0; 2; 1; 2] |}
           {| shape := [3%nat];
              data := [S754_finite false 8388608 (-23); S754_zero false;
                       S754_finite false 1 (-149)] |}
           0%nat 0 1); vm_compute; reflexivity.
Defined.

(** C2 as stated fails: the positive weight 2^-200 of the edge (0, 1) is
    returned as 0, which is not positive. *)
Lemma tiny_weight_surfaces_as_zero :
  let w := two_pow_m200 in
  is_double w = true ∧ positive_real w = true ∧
  ConvertEdgeDequeToNumpyArray example_junk_e [ {[1]}; ∅ ]
    = Ok {| shape := [1%nat; 2%nat]; data := [0; 1] |} ∧
  ConvertWeightMapToNumpyArray example_junk_w [ {[1 := w]}; ∅ ] [ {[1]}; ∅ ]
    = Ok {| shape := [1%nat]; data := [S754_zero false] |} ∧
  positive_real (S754_zero false) = false.
Proof. vm_compute. done. Qed.

(** C3, as the code has it.  With heads that are non-negative [int]s, the
    edge array holds one row [(tail, head)] for every head stored in
    [Eout[tail]] and no ordered pair twice; nothing is filtered.  Every row
    has [tail < head] exactly when every head stored in [Eout[tail]] is
    greater than [tail], and then no unordered pair occupies two rows (and no
    row is a self-loop). *)
Theorem edge_array_rows_unfiltered (junk : nat → Z) (Eout : list (gset Z)) :
  (∀ tail head_set head,
     Eout !! tail = Some head_set → head ∈ head_set → 0 <= head ∧ int_range head) →
  ∃ edge_array,
    ConvertEdgeDequeToNumpyArray junk Eout = Ok edge_array ∧
    (∀ tail head,
       (∃ head_set, Eout !! tail = Some head_set ∧ head ∈ head_set) ↔
       ∃ i, row edge_array i = Some (Z.of_nat tail, head)) ∧
    (∀ i j r, row edge_array i = Some r → row edge_array j = Some r → i = j) ∧
    ((∀ i t h, row edge_array i = Some (t, h) → t < h) ↔
     (∀ tail head_set head,
        Eout !! tail = Some head_set → head ∈ head_set → Z.of_nat tail < head)) ∧
    ((∀ i t h, row edge_array i = Some (t, h) → t < h) →
     ∀ i j t h t' h',
       row edge_array i = Some (t, h) → row edge_array j = Some (t', h') →
       (t = t' ∧ h = h') ∨ (t = h' ∧ h = t') → i = j).
Proof.
  intros Hheads. eexists. split; [apply ConvertEdge_eq|].
  set (a := {| shape := [length (edges_of Eout); 2%nat];
               data := edges_of Eout ≫= edge_cells |}).
  assert (∀ i t h, row a i = Some (t, h) ↔
                   ∃ tail, edges_of Eout !! i = Some (tail, h) ∧ t = Z.of_nat tail)
    as Hrow.
  { intros i t h. unfold a. rewrite (row_of_edges junk Eout) by apply ConvertEdge_eq.
    destruct (edges_of Eout !! i) as [[tail head]|] eqn:Hi; cbn.
    - pose proof Hi as (hs&Hhs&Hh)%list_elem_of_lookup_2%elem_of_edges_of.
      destruct (Hheads _ _ _ Hhs Hh).
      rewrite uint64_of_int_small by done. unfold uint64_of_size_t. split.
      + intros [= <- <-]. eauto.
      + intros (tail'&[= <- <-]&->). done.
    - split; [done|]. by intros (?&?&?). }
  assert (∀ i j r, row a i = Some r → row a j = Some r → i = j) as Hnodup.
  { intros i j [t h] (tail&Hi&->)%Hrow (tail'&Hj&Ht)%Hrow.
    apply Nat2Z.inj in Ht as <-.
    eapply NoDup_lookup; [apply NoDup_edges_of|done..]. }
  split_and!; [|done| |].
  - intros tail head. rewrite <- elem_of_edges_of, list_elem_of_lookup.
    split; intros [i Hi]; exists i.
    + apply Hrow. eauto.
    + apply Hrow in Hi as (tail'&Hi&Ht). by apply Nat2Z.inj in Ht as <-.
  - split.
    + intros Hlt tail hs head Hhs Hh.
      assert ((tail, head) ∈ edges_of Eout) as [i Hi]%list_elem_of_lookup
        by (apply elem_of_edges_of; eauto).
      apply (Hlt i). apply Hrow. eauto.
    + intros Hst i t h (tail&Hi&->)%Hrow.
      apply list_elem_of_lookup_2, elem_of_edges_of in Hi as (hs&?&?). eauto.
  - intros Hlt i j t h t' h' Hi Hj [[-> ->]|[-> ->]]; [by eapply Hnodup|].
    apply Hlt in Hi, Hj. lia.
Qed.

(** The three-node example, which stores every edge once. *)
Lemma edge_array_rows_unfiltered_witness :
  ∃ edge_array,
    ConvertEdgeDequeToNumpyArray example_junk_e example_Eout = Ok edge_array ∧
    (∀ tail head,
       (∃ head_set, example_Eout !! tail = Some head_set ∧ head ∈ head_set) ↔
       ∃ i, row edge_array i = Some (Z.of_nat tail, head)) ∧
    (∀ i j r, row edge_array i = Some r → row edge_array j = Some r → i = j) ∧
    ((∀ i t h, row edge_array i = Some (t, h) → t < h) ↔
     (∀ tail head_set head,
        example_Eout !! tail = Some head_set → head ∈ head_set →
        Z.of_nat tail < head)) ∧
    ((∀ i t h, row edge_array i = Some (t, h) → t < h) →
     ∀ i j t h t' h',
       row edge_array i = Some (t, h) → row edge_array j = Some (t', h') →
       (t = t' ∧ h = h') ∨ (t = h' ∧ h = t') → i = j).
Proof.
  apply (edge_array_rows_unfiltered example_junk_e example_Eout).
  apply heads_check. vm_compute. reflexivity.
Defined.

(** C3 as stated fails: when every node of the triangle holds the set of its
    neighbours, row 2 is (1, 0), with its tail above its head, and the pair
    of nodes 0 and 1 fills rows 0 and 2. *)
Lemma neighbour_sets_give_both_directions :
  ConvertEdgeDequeToNumpyArray example_junk_e example_neighbours
  = Ok {| shape := [6%nat; 2%nat];
          data := [0; 1; 0; 2; 1; 0; 1; 2; 2; 0; 2; 1] |} ∧
  row {| shape := [6%nat; 2%nat];
         data := [0; 1; 0; 2; 1; 0; 1; 2; 2; 0; 2; 1] |} 0 = Some (0, 1) ∧
  row {| shape := [6%nat; 2%nat];
         data := [0; 1; 0; 2; 1; 0; 1; 2; 2; 0; 2; 1] |} 2 = Some (1, 0) ∧
  ¬ (1 < 0) ∧ 0%nat ≠ 2%nat.
Proof. split; [by vm_compute|]. split_and!; [done..|lia|lia]. Qed.

(** C5.  With the generator of the spec: a call with [beta] outside [0,1] or
    [muw <= 0] fails with [InvalidParameter]; a call whose topology has a node
    without intra-community (or inter-community) edges while a nonzero weight
    fraction is asked for that category fails with [DegenerateInput]; and
    every call either returns the full triple (an E x 2 edge array, E weights,
    a member tuple with every slot filled) or returns nothing. *)
Theorem weight_failures_all_or_nothing (seed_label : Z) (rng : Type)
    (srand : Z → rng)
    (grow_step : nat → spec_float → list (gset Z) * list (list Z) * rng → nat →
                 list (gset Z) * list (list Z) * rng)
    (assign_weights : list (gset Z) → list (list Z) → spec_float → spec_float →
                      rng → list (gmap Z spec_float))
    (junk_e : nat → Z) (junk_w : nat → spec_float) (p : params) :
  let build :=
    build_network_klemm_spec seed_label rng srand grow_step assign_weights in
  let r := (GenerateKlemmGraph build junk_e junk_w (Some p)).2 in
  (weight_params_invalid p = true → r = Propagates InvalidParameter) ∧
  (grower_params_invalid p = false → weight_params_invalid p = false →
   (let '(E, M, _) :=
      Grow seed_label rng srand grow_step (Z.to_nat (num_nodes p))
        (Z.to_nat (clique_size p)) (clique_linkage p) (seed p) in
    degenerate E M (beta p)) = true →
   r = Propagates DegenerateInput) ∧
  match r with
  | PyNULL => False
  | PyTuple3 edge_array member_tuple weight_array =>
      ∃ n, shape edge_array = [n; 2%nat] ∧
           length (data edge_array) = (2 * n)%nat ∧
           shape weight_array = [n] ∧
           length (data weight_array) = n ∧
           Forall is_Some member_tuple
  | Propagates _ | Faults _ => True
  end.
Proof.
  intros build r. subst r. rewrite GenerateKlemmGraph_eq.
  subst build. unfold build_network_klemm_spec.
  split_and!.
  - intros ->. by rewrite orb_true_r.
  - intros -> ->. cbn [orb].
    destruct (Grow _ _ _ _ _ _ _ _) as [[E M] r]. by intros ->.
  - destruct (_ || _); [done|].
    destruct (Grow _ _ _ _ _ _ _ _) as [[E M] r].
    destruct (degenerate E M (beta p)); [done|].
    cbn [snd]. unfold marshalled. cbn [Eout Wout member_list].
    destruct (mapM _ _) as [ws|] eqn:Hws; [|done].
    exists (length (edges_of E)). cbn [shape data].
    rewrite length_bind_cells, length_fmap.
    apply mapM_Ok_Forall2, Forall2_length in Hws.
    split_and!; try done.
    apply Forall_fmap, Forall_true. intros c. by eexists.
Qed.

(** Both failures happen: [beta = 2], and the one-community seed clique
    with [beta = 1/2]. *)
Lemma weight_failures_all_or_nothing_witness :
  (GenerateKlemmGraph example_build example_junk_e example_junk_w
     (Some params_beta_too_large)).2 = Propagates InvalidParameter
  ∧ (GenerateKlemmGraph example_build example_junk_e example_junk_w
       (Some params_seed_clique_mixed)).2 = Propagates DegenerateInput.
Proof.
  split.
  - apply (proj1 (weight_failures_all_or_nothing 0 unit (fun _ => ())
                    example_grow_step example_assign_weights
                    example_junk_e example_junk_w params_beta_too_large)).
    vm_compute. reflexivity.
  - apply (proj1 (proj2 (weight_failures_all_or_nothing 0 unit (fun _ => ())
                    example_grow_step example_assign_weights
                    example_junk_e example_junk_w params_seed_clique_mixed)));
      vm_compute; reflexivity.
Defined.

(** C8, as the code has it.  Every entry of the weight array is the
    binary32 narrowing of the [double] stored for the edge of the same index;
    a positive [double] of at most 2^-150 (half the smallest positive
    binary32 value) is returned as +0, and a [double] strictly between 2^-150
    and 2^-149 is returned as 2^-149, the smallest positive binary32 value. *)
Theorem weights_are_narrowed_doubles (junk : nat → spec_float)
    (Wout : list (gmap Z spec_float)) (Eout : list (gset Z))
    (weight_array : ndarray spec_float) (i : nat) (x : spec_float) :
  ConvertWeightMapToNumpyArray junk Wout Eout = Ok weight_array →
  data weight_array !! i = Some x →
  ∃ tail head weights w,
    edges_of Eout !! i = Some (tail, head) ∧
    Wout !! tail = Some weights ∧ weights !! head = Some w ∧
    x = float32_of_double w ∧
    (is_double w = true → positive_real w = true →
     SFleb w two_pow_m150 = true → x = S754_zero false) ∧
    (is_double w = true → SFltb two_pow_m150 w = true →
     SFltb w two_pow_m149 = true → x = S754_finite false 1 (-149)).
Proof.
  intros (ws&Hws&->)%ConvertWeight_Ok Hx. cbn in Hx.
  apply list_lookup_fmap_Some in Hx as (w&->&Hw).
  destruct (Forall2_lookup_r _ _ _ _ _ Hws Hw) as ([tail head]&Hi&Hwo).
  apply weight_of_Ok in Hwo as (weights&?&?).
  exists tail, head, weights, w. split_and!; try done.
  - apply float32_underflow.
  - apply float32_round_up.
Qed.

(** Entry 1 of the example: the weight 2^-200 of the edge (0, 2). *)
Lemma weights_are_narrowed_doubles_witness :
  ∃ tail head weights w,
    edges_of example_Eout !! 1%nat = Some (tail, head) ∧
    example_Wout !! tail = Some weights ∧ weights !! head = Some w ∧
    S754_zero false = float32_of_double w ∧
    (is_double w = true → positive_real w = true →
     SFleb w two_pow_m150 = true → S754_zero false = S754_zero false) ∧
    (is_double w = true → SFltb two_pow_m150 w = true →
     SFltb w two_pow_m149 = true → S754_zero false = S754_finite false 1 (-149)).
Proof.
  apply (weights_are_narrowed_doubles example_junk_w example_Wout example_Eout
           {| shape := [3%nat];
              data := [S754_finite false 8388608 (-23); S754_zero false;
                       S754_finite false 1 (-149)] |}
           1%nat (S754_zero false)); vm_compute; reflexivity.
Defined.

(** C8 as stated fails: 1.5 * 2^-150 is a positive [double] below 2^-149,
    the smallest positive binary32 value, yet it is returned as 2^-149 and
    not as 0. *)
Lemma tiny_weight_rounds_up :
  let w := three_halves_two_pow_m150 in
  is_double w = true ∧ positive_real w = true ∧
  SFltb w two_pow_m149 = true ∧
  ConvertWeightMapToNumpyArray example_junk_w [ {[1 := w]}; ∅ ] [ {[1]}; ∅ ]
    = Ok {| shape := [1%nat]; data := [S754_finite false 1 (-149)] |} ∧
  S754_finite false 1 (-149) ≠ S754_zero false.
Proof. vm_compute. by repeat split. Qed.

(** C9.  [ConvertWeightMapToNumpyArray] returns an array when [Wout] is at
    least as long as [Eout] and [Wout[tail]] has a key for every head of
    [Eout[tail]]; and only then: if it returns an array, every edge of [Eout]
    has its entry in [Wout], so that neither [std::map::at] throws nor the
    deque is indexed past its end. *)
Theorem weight_lookup_total (junk : nat → spec_float)
    (Wout : list (gmap Z spec_float)) (Eout : list (gset Z)) :
  ((length Eout ≤ length Wout)%nat ∧
   (∀ tail head_set weights head,
      Eout !! tail = Some head_set → Wout !! tail = Some weights →
      head ∈ head_set → is_Some (weights !! head))
   → ∃ weight_array, ConvertWeightMapToNumpyArray junk Wout Eout = Ok weight_array)
  ∧
  ((∃ weight_array, ConvertWeightMapToNumpyArray junk Wout Eout = Ok weight_array)
   → ∀ tail head_set head,
       Eout !! tail = Some head_set → head ∈ head_set →
       ∃ weights, Wout !! tail = Some weights ∧ is_Some (weights !! head)).
Proof.
  split.
  - intros [Hlen Hkeys].
    assert (Forall (fun e => ∃ w, weight_of Wout e = Ok w) (edges_of Eout)) as Hall.
    { apply Forall_forall. intros [tail head] (hs&Hhs&Hh)%elem_of_edges_of.
      destruct (lookup_lt_is_Some_2 Wout tail) as [weights Hw].
      { apply lookup_lt_Some in Hhs. lia. }
      destruct (Hkeys _ _ _ _ Hhs Hw Hh) as [w Hwh].
      exists w. apply weight_of_Ok. eauto. }
    apply Forall_exists_Forall2_l in Hall as [ws Hws].
    eexists. apply ConvertWeight_Ok. eauto.
  - intros [a (ws&Hws&_)%ConvertWeight_Ok] tail hs head Hhs Hh.
    assert ((tail, head) ∈ edges_of Eout) as Hin by (apply elem_of_edges_of; eauto).
    apply list_elem_of_lookup in Hin as [i Hi].
    destruct (Forall2_lookup_l _ _ _ _ _ Hws Hi) as (w&_&Hw).
    apply weight_of_Ok in Hw as (weights&?&?). eauto.
Qed.

(** The three-node example meets the precondition. *)
Lemma weight_lookup_total_witness :
  ∃ weight_array,
    ConvertWeightMapToNumpyArray example_junk_w example_Wout example_Eout
    = Ok weight_array.
Proof.
  apply (proj1 (weight_lookup_total example_junk_w example_Wout example_Eout)).
  split; [vm_compute; lia|].
  apply keys_present_check. vm_compute. reflexivity.
Defined.

(** C10.  For every [Eout], and whatever [Wout] is, the edge array has as
    many rows as [Eout] has (tail, head) entries, and a weight array, when
    one is returned, has that many entries. *)
Theorem edge_and_weight_arrays_aligned (junk_e : nat → Z)
    (junk_w : nat → spec_float) (Wout : list (gmap Z spec_float))
    (Eout : list (gset Z)) :
  count_edges Eout = sum_list_with size Eout ∧
  (∃ edge_array,
     ConvertEdgeDequeToNumpyArray junk_e Eout = Ok edge_array ∧
     shape edge_array = [sum_list_with size Eout; 2%nat] ∧
     length (data edge_array) = (2 * sum_list_with size Eout)%nat) ∧
  (∀ weight_array,
     ConvertWeightMapToNumpyArray junk_w Wout Eout = Ok weight_array →
     shape weight_array = [sum_list_with size Eout] ∧
     length (data weight_array) = sum_list_with size Eout).
Proof.
  split_and!.
  - by rewrite count_edges_length, length_edges_of.
  - eexists. split; [apply ConvertEdge_eq|]. cbn.
    by rewrite length_bind_cells, length_edges_of.
  - intros a (ws&Hws&->)%ConvertWeight_Ok. cbn.
    apply Forall2_length in Hws.
    by rewrite length_fmap, <- Hws, length_edges_of.
Qed.

(** * Further properties of the marshalling code *)

(** X1.  [ConvertEdgeDequeToNumpyArray] always returns an array: no store
    falls outside the buffer and the deque is never indexed past its end.
    The buffer has as many cells as its shape says and each of them is
    overwritten, so the array does not depend on what the allocator left in
    it. *)
Theorem ConvertEdgeDequeToNumpyArray_total (junk junk' : nat → Z)
    (Eout : list (gset Z)) :
  ∃ edge_array,
    ConvertEdgeDequeToNumpyArray junk Eout = Ok edge_array ∧
    ConvertEdgeDequeToNumpyArray junk' Eout = Ok edge_array ∧
    length (data edge_array) = foldr Nat.mul 1%nat (shape edge_array).
Proof.
  eexists. rewrite !ConvertEdge_eq. split_and!; [done..|].
  cbn. rewrite length_bind_cells. lia.
Qed.

(** X2.  [ConvertMemberDequeToTuple] always returns a tuple with one filled
    slot per node, holding a tuple with one filled slot per community label
    of that node, in the order of [member_list]. *)
Theorem ConvertMemberDequeToTuple_total (member_list : list (list Z)) :
  ∃ member_tuple,
    ConvertMemberDequeToTuple member_list = Ok member_tuple ∧
    length member_tuple = length member_list ∧
    ∀ member communities,
      member_list !! member = Some communities →
      ∃ communities_tuple,
        member_tuple !! member = Some (Some communities_tuple) ∧
        length communities_tuple = length communities ∧
        ∀ iii label, communities !! iii = Some label →
                     communities_tuple !! iii = Some (Some label).
Proof.
  eexists. split; [apply ConvertMember_eq|]. split; [by rewrite length_fmap|].
  intros member communities Hm. exists (Some <$> communities).
  rewrite list_lookup_fmap, Hm. split; [done|]. split; [by rewrite length_fmap|].
  intros iii label Hl. by rewrite list_lookup_fmap, Hl.
Qed.

(** X3.  When [ConvertWeightMapToNumpyArray] fails, an edge of [Eout] is
    missing from [Wout]: either [Wout] has no map for its tail, or the map
    has no key for its head ([std::map::at] throws).  It never stores outside
    its buffer. *)
Theorem ConvertWeightMapToNumpyArray_faults (junk : nat → spec_float)
    (Wout : list (gmap Z spec_float)) (Eout : list (gset Z)) (f : fault) :
  ConvertWeightMapToNumpyArray junk Wout Eout = Fault f →
  ∃ tail head_set head,
    Eout !! tail = Some head_set ∧ head ∈ head_set ∧
    ((f = deque_past_end ∧ Wout !! tail = None) ∨
     (f = out_of_range ∧ ∃ weights, Wout !! tail = Some weights
                                    ∧ weights !! head = None)).
Proof.
  rewrite ConvertWeight_eq.
  destruct (mapM _ _) as [ws|e] eqn:E; cbn; [done|]. intros [= ->].
  apply mapM_Fault in E as ([tail head]&(hs&?&?)%elem_of_edges_of&Hf).
  exists tail, hs, head. split_and!; [done..|].
  unfold weight_of, deque_index, map_at in Hf. cbn in Hf.
  destruct (Wout !! tail) as [weights|]; cbn in Hf.
  - right. destruct (weights !! head) eqn:?; [done|]. injection Hf as <-. eauto.
  - left. by injection Hf as <-.
Qed.

(** An edge whose weight is missing. *)
Lemma ConvertWeightMapToNumpyArray_faults_witness :
  ∃ tail head_set head,
    [ ({[1]} : gset Z) ] !! tail = Some head_set ∧ head ∈ head_set ∧
    ((out_of_range = deque_past_end ∧ [ (∅ : gmap Z spec_float) ] !! tail = None) ∨
     (out_of_range = out_of_range ∧
      ∃ weights, [ (∅ : gmap Z spec_float) ] !! tail = Some weights
                 ∧ weights !! head = None)).
Proof.
  apply (ConvertWeightMapToNumpyArray_faults example_junk_w [ ∅ ] [ {[1]} ]
           out_of_range).
  vm_compute. reflexivity.
Defined.

(** X4.  When the heads are non-negative [int]s, the rows of the edge array
    are in strictly ascending lexicographic order: by tail, then by head. *)
Theorem edge_rows_ascending (junk : nat → Z) (Eout : list (gset Z))
    (edge_array : ndarray Z) (i j : nat) (t h t' h' : Z) :
  (∀ tail head_set head,
     Eout !! tail = Some head_set → head ∈ head_set → 0 <= head ∧ int_range head) →
  ConvertEdgeDequeToNumpyArray junk Eout = Ok edge_array →
  (i < j)%nat →
  row edge_array i = Some (t, h) → row edge_array j = Some (t', h') →
  t < t' ∨ (t = t' ∧ h < h').
Proof.
  intros Hheads He Hij. rewrite !(row_of_edges _ _ _ _ He).
  destruct (edges_of Eout !! i) as [[a b]|] eqn:Hi; [|done].
  destruct (edges_of Eout !! j) as [[a' b']|] eqn:Hj; [|done].
  intros [= <- <-] [= <- <-]. cbn [fst snd].
  pose proof (StronglySorted_lookup_lt _ _ _ _ _ _ (edges_of_sorted Eout) Hij Hi Hj)
    as Hlt.
  apply list_elem_of_lookup_2, elem_of_edges_of in Hi as (hs&Hhs&Hb).
  apply list_elem_of_lookup_2, elem_of_edges_of in Hj as (hs'&Hhs'&Hb').
  destruct (Hheads _ _ _ Hhs Hb), (Hheads _ _ _ Hhs' Hb').
  rewrite !uint64_of_int_small by done. unfold uint64_of_size_t.
  destruct Hlt as [?|[? ?]]; cbn in *; [left; lia|right; lia].
Qed.

(** Rows 0 and 1 of the three-node example. *)
Lemma edge_rows_ascending_witness : 0 < 0 ∨ (0 = 0 ∧ 1 < 2).
Proof.
  apply (edge_rows_ascending example_junk_e example_Eout
           {| shape := [3%nat; 2%nat]; data := [0; 1; 0; 2; 1; 2] |}
           0%nat 1%nat 0 1 0 2).
  - apply heads_check. vm_compute. reflexivity.
  - vm_compute. reflexivity.
  - lia.
  - reflexivity.
  - reflexivity.
Defined.

(** *** More on the rows *)

Lemma uint64_of_int_inj x y :
  int_range x → int_range y → uint64_of_int x = uint64_of_int y → x = y.
Proof.
  unfold int_range, uint64_of_int. intros Hx Hy H.
  pose proof (Z.div_mod x (2 ^ 64) ltac:(lia)) as Hdx.
  pose proof (Z.div_mod y (2 ^ 64) ltac:(lia)) as Hdy.
  rewrite H in Hdx.
  pose proof (Z.mod_pos_bound y (2 ^ 64) ltac:(lia)).
  change (2 ^ 64) with 18446744073709551616 in *.
  change (2 ^ 31) with 2147483648 in *.
  lia.
Qed.

Lemma set_iter_empty : set_iter ∅ = [].
Proof. unfold set_iter. by rewrite elements_empty. Qed.

Lemma edges_from_app k l1 l2 :
  edges_from k (l1 ++ l2) = edges_from k l1 ++ edges_from (k + length l1) l2.
Proof.
  revert k. induction l1 as [|hs l1 IH]; intros k; cbn [app edges_from length].
  - by rewrite Nat.add_0_r.
  - rewrite IH, <- app_assoc. do 3 f_equal. lia.
Qed.

Lemma edges_from_all_empty k (l : list (gset Z)) :
  Forall (fun hs => hs = ∅) l → edges_from k l = [].
Proof.
  intros H. revert k. induction H as [|hs l -> _ IH]; intros k; [done|].
  cbn [edges_from]. by rewrite set_iter_empty, IH.
Qed.

(** X5.  When the heads are [int]s, the rows of the edge array are exactly
    the edges of [Eout]: [head] is in [Eout[tail]] if and only if some row
    holds [tail] and [head] (as [npy_uint64]), and no two rows are equal. *)
Theorem edge_rows_are_the_edges (junk : nat → Z) (Eout : list (gset Z))
    (edge_array : ndarray Z) :
  (∀ tail head_set head,
     Eout !! tail = Some head_set → head ∈ head_set → int_range head) →
  ConvertEdgeDequeToNumpyArray junk Eout = Ok edge_array →
  (∀ tail head, int_range head →
     ((∃ head_set, Eout !! tail = Some head_set ∧ head ∈ head_set) ↔
      ∃ i, row edge_array i = Some (uint64_of_size_t tail, uint64_of_int head))) ∧
  (∀ i j r, row edge_array i = Some r → row edge_array j = Some r → i = j).
Proof.
  intros Hint He.
  assert (∀ i tail head,
            edges_of Eout !! i = Some (tail, head) → int_range head) as Hint'.
  { intros i tail head (hs&?&?)%list_elem_of_lookup_2%elem_of_edges_of. eauto. }
  split.
  - intros tail head Hh. rewrite <- elem_of_edges_of, list_elem_of_lookup.
    split; intros [i Hi]; exists i.
    + by rewrite (row_of_edges _ _ _ _ He), Hi.
    + rewrite (row_of_edges _ _ _ _ He) in Hi.
      destruct (edges_of Eout !! i) as [[tail' head']|] eqn:E; [|done].
      injection Hi as Ht Hhd. apply Nat2Z.inj in Ht as ->.
      apply uint64_of_int_inj in Hhd as ->; eauto.
  - intros i j r. rewrite !(row_of_edges _ _ _ _ He).
    destruct (edges_of Eout !! i) as [[t1 h1]|] eqn:E1; [|done].
    destruct (edges_of Eout !! j) as [[t2 h2]|] eqn:E2; [|done].
    intros [= <-] [= Ht Hhd]. apply Nat2Z.inj in Ht as ->.
    apply uint64_of_int_inj in Hhd as ->; eauto.
    eapply NoDup_lookup; [apply NoDup_edges_of|done..].
Qed.

(** X6.  Nodes without heads at the end of [Eout] leave no trace in either
    array: both routines return the same for [Eout] followed by any number
    of empty sets as for [Eout]. *)
Theorem trailing_empty_sets_leave_no_trace (junk_e : nat → Z)
    (junk_w : nat → spec_float) (Wout : list (gmap Z spec_float))
    (Eout : list (gset Z)) (n : nat) :
  ConvertEdgeDequeToNumpyArray junk_e (Eout ++ replicate n ∅)
  = ConvertEdgeDequeToNumpyArray junk_e Eout ∧
  ConvertWeightMapToNumpyArray junk_w Wout (Eout ++ replicate n ∅)
  = ConvertWeightMapToNumpyArray junk_w Wout Eout.
Proof.
  assert (edges_of (Eout ++ replicate n ∅) = edges_of Eout) as H.
  { unfold edges_of. rewrite edges_from_app.
    rewrite (edges_from_all_empty _ (replicate n ∅)) by by apply Forall_replicate.
    by rewrite app_nil_r. }
  by rewrite !ConvertEdge_eq, !ConvertWeight_eq, H.
Qed.

(** X7.  Only the weights of the edges of [Eout] are read: two weight
    structures that hold the same weight for every edge give the same weight
    array, whatever other keys and maps they hold. *)
Theorem weights_outside_the_edges_ignored (junk junk' : nat → spec_float)
    (Wout Wout' : list (gmap Z spec_float)) (Eout : list (gset Z)) :
  (∀ tail head_set head,
     Eout !! tail = Some head_set → head ∈ head_set →
     ∃ weights weights' w,
       Wout !! tail = Some weights ∧ Wout' !! tail = Some weights' ∧
       weights !! head = Some w ∧ weights' !! head = Some w) →
  ∃ weight_array,
    ConvertWeightMapToNumpyArray junk Wout Eout = Ok weight_array ∧
    ConvertWeightMapToNumpyArray junk' Wout' Eout = Ok weight_array.
Proof.
  intros H.
  assert (Forall (fun e => ∃ w, weight_of Wout e = Ok w ∧ weight_of Wout' e = Ok w)
            (edges_of Eout)) as Hall.
  { apply Forall_forall. intros [tail head] (hs&Hhs&Hh)%elem_of_edges_of.
    destruct (H _ _ _ Hhs Hh) as (ws&ws'&w&?&?&?&?).
    exists w. split; apply weight_of_Ok; eauto. }
  apply Forall_exists_Forall2_l in Hall as [ws Hws].
  eexists. split; apply ConvertWeight_Ok; exists ws; (split; [|done]).
  - eapply Forall2_impl; [exact Hws|]. by intros ? ? [? ?].
  - eapply Forall2_impl; [exact Hws|]. by intros ? ? [? ?].
Qed.

Lemma weights_agree_check (Wout Wout' : list (gmap Z spec_float)) (Eout : list (gset Z)) :
  forallb (fun e => match weight_of Wout e, weight_of Wout' e with
                    | Ok (S754_finite s m x), Ok (S754_finite s' m' x') =>
                        bool_decide (s = s') && (m =? m')%positive && (x =? x')
                    | _, _ => false
                    end) (edges_of Eout) = true →
  ∀ tail head_set head,
    Eout !! tail = Some head_set → head ∈ head_set →
    ∃ weights weights' w,
      Wout !! tail = Some weights ∧ Wout' !! tail = Some weights' ∧
      weights !! head = Some w ∧ weights' !! head = Some w.
Proof.
  intros H tail hs head Hhs Hh. rewrite forallb_forall in H.
  assert ((tail, head) ∈ edges_of Eout) as Hin by (apply elem_of_edges_of; eauto).
  specialize (H _ (proj1 (list_elem_of_In _ _) Hin)).
  destruct (weight_of Wout (tail, head)) as [[| | |s m x]|] eqn:E1; try done.
  destruct (weight_of Wout' (tail, head)) as [[| | |s' m' x']|] eqn:E2; try done.
  apply andb_prop in H as [[Hs%bool_decide_eq_true Hm%Pos.eqb_eq]%andb_prop Hx%Z.eqb_eq].
  subst. apply weight_of_Ok in E1 as (ws&?&?), E2 as (ws'&?&?). eauto 10.
Qed.

(** The three-node example, with and without unused keys and maps. *)
Lemma weights_outside_the_edges_ignored_witness :
  ∃ weight_array,
    ConvertWeightMapToNumpyArray example_junk_w example_Wout example_Eout
    = Ok weight_array ∧
    ConvertWeightMapToNumpyArray example_junk_w example_Wout_padded example_Eout
    = Ok weight_array.
Proof.
  apply (weights_outside_the_edges_ignored example_junk_w example_junk_w
           example_Wout example_Wout_padded example_Eout).
  apply weights_agree_check. vm_compute. reflexivity.
Defined.

(** The rows of the three-node example. *)
Lemma edge_rows_are_the_edges_witness :
  (∀ tail head, int_range head →
     ((∃ head_set, example_Eout !! tail = Some head_set ∧ head ∈ head_set) ↔
      ∃ i, row {| shape := [3%nat; 2%nat]; data := [0; 1; 0; 2; 1; 2] |} i
           = Some (uint64_of_size_t tail, uint64_of_int head))) ∧
  (∀ i j r,
     row {| shape := [3%nat; 2%nat]; data := [0; 1; 0; 2; 1; 2] |} i = Some r →
     row {| shape := [3%nat; 2%nat]; data := [0; 1; 0; 2; 1; 2] |} j = Some r →
     i = j).
Proof.
  apply (edge_rows_are_the_edges example_junk_e example_Eout).
  - intros tail head_set head H1 H2.
    apply (proj2 (heads_check example_Eout eq_refl tail head_set head H1 H2)).
  - vm_compute. reflexivity.
Defined.

(** X8.  When [build_network_klemm] returns with no head in any set of
    [Eout], the entry point does not fail: it returns a 0 x 2 edge array, an
    empty weight array and one slot per element of [member_list], without
    looking at [Wout]. *)
Theorem no_edges_no_error (build : params → graph → build_outcome)
    (junk_e : nat → Z) (junk_w : nat → spec_float) (p : params) (g : graph) :
  build p empty_graph = BuildReturns g →
  Forall (fun head_set => head_set = ∅) (Eout g) →
  ∃ member_tuple,
    (GenerateKlemmGraph build junk_e junk_w (Some p)).2
    = PyTuple3 {| shape := [0%nat; 2%nat]; data := [] |} member_tuple
               {| shape := [0%nat]; data := [] |}
    ∧ length member_tuple = length (member_list g).
Proof.
  intros Hb Hempty. rewrite GenerateKlemmGraph_eq, Hb. cbn [snd].
  unfold marshalled, edges_of. rewrite edges_from_all_empty by done.
  eexists. split; [done|]. by rewrite length_fmap.
Qed.

(** A generator that returns without filling the containers. *)
Lemma no_edges_no_error_witness :
  ∃ member_tuple,
    (GenerateKlemmGraph echo_build example_junk_e example_junk_w
       (Some params_clique_too_large)).2
    = PyTuple3 {| shape := [0%nat; 2%nat]; data := [] |} member_tuple
               {| shape := [0%nat]; data := [] |}
    ∧ length member_tuple = length (member_list empty_graph).
Proof.
  apply (no_edges_no_error echo_build example_junk_e example_junk_w
           params_clique_too_large empty_graph).
  - reflexivity.
  - constructor.
Defined.

(** X9.  When [build_network_klemm] returns, the entry point returns a
    tuple if and only if [Wout] has a weight for every edge of [Eout];
    otherwise it fails with [out_of_range] or by indexing [Wout] past its
    end.  [member_list] never makes it fail. *)
Theorem tuple_iff_weights_cover_edges (build : params → graph → build_outcome)
    (junk_e : nat → Z) (junk_w : nat → spec_float) (p : params) (g : graph) :
  build p empty_graph = BuildReturns g →
  let r := (GenerateKlemmGraph build junk_e junk_w (Some p)).2 in
  ((∃ edge_array member_tuple weight_array,
      r = PyTuple3 edge_array member_tuple weight_array) ↔
   (∀ tail head_set head,
      Eout g !! tail = Some head_set → head ∈ head_set →
      ∃ weights, Wout g !! tail = Some weights ∧ is_Some (weights !! head))) ∧
  ((∃ edge_array member_tuple weight_array,
      r = PyTuple3 edge_array member_tuple weight_array)
   ∨ r = Faults out_of_range ∨ r = Faults deque_past_end).
Proof.
  intros Hb r. subst r. rewrite GenerateKlemmGraph_eq, Hb. cbn [snd].
  unfold marshalled.
  destruct (mapM (weight_of (Wout g)) (edges_of (Eout g))) as [ws|f] eqn:E.
  - split; [|eauto 10]. split; [|eauto 10]. intros _ tail hs head Hhs Hh.
    apply mapM_Ok_Forall2 in E.
    assert ((tail, head) ∈ edges_of (Eout g)) as Hin by (apply elem_of_edges_of; eauto).
    apply list_elem_of_lookup in Hin as [i Hi].
    destruct (Forall2_lookup_l _ _ _ _ _ E Hi) as (w&_&Hw).
    apply weight_of_Ok in Hw as (weights&?&?). eauto.
  - pose proof E as E'.
    apply mapM_Fault in E as ([tail head]&(hs&Hhs&Hh)%elem_of_edges_of&Hf).
    unfold weight_of, deque_index, map_at in Hf. cbn in Hf. split.
    + split; [by intros (?&?&?&?)|]. intros H.
      destruct (H _ _ _ Hhs Hh) as (weights&Hw&[w Hw']).
      rewrite Hw in Hf. cbn in Hf. by rewrite Hw' in Hf.
    + right. destruct (Wout g !! tail) as [weights|]; cbn in Hf.
      * destruct (weights !! head); [done|]. injection Hf as <-. by left.
      * injection Hf as <-. by right.
Qed.

(** The seed clique on three nodes. *)
Lemma tuple_iff_weights_cover_edges_witness :
  let r := (GenerateKlemmGraph example_build example_junk_e example_junk_w
              (Some params_seed_clique)).2 in
  ((∃ edge_array member_tuple weight_array,
      r = PyTuple3 edge_array member_tuple weight_array) ↔
   (∀ tail head_set head,
      (seed_clique 0 3).1 !! tail = Some head_set → head ∈ head_set →
      ∃ weights,
        example_assign_weights (seed_clique 0 3).1 (seed_clique 0 3).2
          double_two double_zero () !! tail = Some weights
        ∧ is_Some (weights !! head))) ∧
  ((∃ edge_array member_tuple weight_array,
      r = PyTuple3 edge_array member_tuple weight_array)
   ∨ r = Faults out_of_range ∨ r = Faults deque_past_end).
Proof.
  apply (tuple_iff_weights_cover_edges example_build example_junk_e
           example_junk_w params_seed_clique
           {| Eout := (seed_clique 0 3).1; member_list := (seed_clique 0 3).2;
              Wout := example_assign_weights (seed_clique 0 3).1
                        (seed_clique 0 3).2 double_two double_zero () |}).
  vm_compute. reflexivity.
Defined.

(** *** Narrowing exactly and overflowing *)

Lemma digits2_pos_shiftl m n :
  Zpos (digits2_pos (Pos.shiftl_nat m n)) = Zpos (digits2_pos m) + Z.of_nat n.
Proof.
  induction n as [|n IH]; [cbn; lia|].
  cbn [Pos.shiftl_nat nat_rect] in *. cbn [digits2_pos].
  rewrite Pos2Z.inj_succ, IH. lia.
Qed.

Lemma shr_1_shiftl m n :
  Nat.iter n shr_1
    {| shr_m := Zpos (Pos.shiftl_nat m n); shr_r := false; shr_s := false |}
  = {| shr_m := Zpos m; shr_r := false; shr_s := false |}.
Proof.
  induction n as [|n IH]; [done|].
  rewrite Nat.iter_succ_r. cbn [Pos.shiftl_nat nat_rect shr_1 orb]. exact IH.
Qed.

Lemma binary_round_exact prec emax s m e n :
  bounded prec emax m e = true →
  binary_round prec emax s (Pos.shiftl_nat m n) (e - Z.of_nat n)
  = S754_finite s m e.
Proof.
  intros [Hc He%Z.leb_le]%andb_prop. unfold canonical_mantissa in Hc.
  apply Z.eqb_eq in Hc. unfold binary_round.
  assert (fexp prec emax
            (Zpos (digits2_pos (Pos.shiftl_nat m n)) + (e - Z.of_nat n)) = e) as Hf.
  { rewrite digits2_pos_shiftl. rewrite <- Hc at 2. f_equal. lia. }
  assert (shl_align (Pos.shiftl_nat m n) (e - Z.of_nat n) e
          = (Pos.shiftl_nat m n, e - Z.of_nat n)) as Hal.
  { unfold shl_align. destruct (e - (e - Z.of_nat n)) eqn:Hq; try done. lia. }
  assert (shr {| shr_m := Zpos (Pos.shiftl_nat m n); shr_r := false; shr_s := false |}
              (e - Z.of_nat n) (e - (e - Z.of_nat n))
          = ({| shr_m := Zpos m; shr_r := false; shr_s := false |}, e)) as Hshr.
  { replace (e - (e - Z.of_nat n)) with (Z.of_nat n) by lia.
    destruct n as [|n]; [cbn [Z.of_nat]; by rewrite Z.sub_0_r|].
    change (Z.of_nat (Datatypes.S n)) with (Z.pos (Pos.of_succ_nat n)).
    unfold shr. rewrite iter_pos_nat, SuccNat2Pos.id_succ, shr_1_shiftl.
    f_equal. lia. }
  rewrite Hf, Hal. unfold binary_round_aux, shr_fexp. cbn [Zdigits2].
  rewrite Hf. cbn [shr_record_of_loc]. rewrite Hshr.
  cbn [shr_m loc_of_shr_record round_nearest_even Zdigits2].
  rewrite Hc, Z.sub_diag. cbn [shr shr_m].
  by rewrite (proj2 (Z.leb_le _ _) He).
Qed.

Lemma shr_1_keeps k : ∀ p r s,
  (k < Pos.to_nat (digits2_pos p))%nat →
  ∃ p' r' s',
    Nat.iter k shr_1 {| shr_m := Zpos p; shr_r := r; shr_s := s |}
    = {| shr_m := Zpos p'; shr_r := r'; shr_s := s' |}
    ∧ Zpos (digits2_pos p') = Zpos (digits2_pos p) - Z.of_nat k.
Proof.
  induction k as [|k IH]; intros p r s Hk.
  { exists p, r, s. split; [done|]. cbn. lia. }
  rewrite Nat.iter_succ_r.
  destruct p as [q|q|]; cbn [digits2_pos] in *.
  - rewrite Pos2Nat.inj_succ in Hk. cbn [shr_1].
    destruct (IH q true (r || s) ltac:(lia)) as (p'&r'&s'&->&Hd).
    exists p', r', s'. split; [done|]. rewrite Pos2Z.inj_succ. lia.
  - rewrite Pos2Nat.inj_succ in Hk. cbn [shr_1].
    destruct (IH q false (r || s) ltac:(lia)) as (p'&r'&s'&->&Hd).
    exists p', r', s'. split; [done|]. rewrite Pos2Z.inj_succ. lia.
  - rewrite Pos2Nat.inj_1 in Hk. lia.
Qed.

Lemma digits2_pos_succ p :
  Zpos (digits2_pos p) <= Zpos (digits2_pos (Pos.succ p)).
Proof.
  induction p as [p IH|p IH|]; simpl; rewrite ?Pos2Z.inj_succ; lia.
Qed.

Lemma binary_round_overflow s m e :
  Zpos (digits2_pos m) = 53 → 76 <= e →
  binary_round 24 128 s m e = S754_infinity s.
Proof.
  intros Hd He. unfold binary_round.
  assert (fexp 24 128 (Zpos (digits2_pos m) + e) = e + 29) as Hf.
  { unfold fexp, emin. lia. }
  rewrite Hf. unfold shl_align.
  replace (e + 29 - e) with 29 by lia.
  unfold binary_round_aux, shr_fexp. cbn [Zdigits2]. rewrite Hf.
  replace (e + 29 - e) with 29 by lia. cbn [shr shr_record_of_loc].
  rewrite iter_pos_nat.
  destruct (shr_1_keeps (Pos.to_nat 29) m false false) as (q&r&st&->&Hq).
  { injection Hd as ->. vm_compute. lia. }
  rewrite Hd in Hq. change (53 - Z.of_nat (Pos.to_nat 29)) with 24 in Hq.
  cbn [shr_m].
  set (x := round_nearest_even (Zpos q) _).
  assert (∃ px, x = Zpos px ∧ 24 <= Zpos (digits2_pos px)) as (px&->&Hpx).
  { subst x. destruct (loc_of_shr_record _) as [|[]]; cbn [round_nearest_even].
    - exists q. lia.
    - destruct (Z.even (Zpos q)).
      + exists q. lia.
      + exists (Pos.succ q). pose proof (digits2_pos_succ q). lia.
    - exists q. lia.
    - exists (Pos.succ q). pose proof (digits2_pos_succ q). lia. }
  cbn [Zdigits2].
  assert (fexp 24 128 (Zpos (digits2_pos px) + (e + 29)) - (e + 29)
          = Zpos (digits2_pos px) - 24) as ->.
  { unfold fexp, emin. lia. }
  destruct (Zpos (digits2_pos px) - 24) as [|k|k] eqn:Hk; [| |lia];
    cbn [shr shr_m fst snd].
  - rewrite (proj2 (Z.leb_gt _ _)) by lia. done.
  - rewrite iter_pos_nat.
    destruct (shr_1_keeps (Pos.to_nat k) px false false) as (p'&r'&s'&->&_).
    { lia. }
    cbn [shr_m]. rewrite (proj2 (Z.leb_gt _ _)) by lia. done.
Qed.

(** X10.  The narrowing of line 105 is exact on every [double] that holds
    a binary32 value: if [m * 2^e] is a canonical binary32 number, any
    representation [(m * 2^n) * 2^(e - n)] of it is narrowed to [m * 2^e];
    for [n = 53 - digits m] that representation is the canonical [double]. *)
Theorem float32_of_double_exact (s : bool) (m : positive) (e : Z) (n : nat) :
  bounded 24 128 m e = true →
  float32_of_double (S754_finite s (Pos.shiftl_nat m n) (e - Z.of_nat n))
  = S754_finite s m e ∧
  (Z.of_nat n = 53 - Zpos (digits2_pos m) →
   is_double (S754_finite s (Pos.shiftl_nat m n) (e - Z.of_nat n)) = true).
Proof.
  intros Hb. split; [by apply binary_round_exact|]. intros Hn.
  apply andb_prop in Hb as [Hc He%Z.leb_le].
  apply Z.eqb_eq in Hc. unfold fexp, emin in Hc.
  unfold is_double, valid_binary, bounded, canonical_mantissa.
  rewrite digits2_pos_shiftl. apply andb_true_intro. split.
  - apply Z.eqb_eq. unfold fexp, emin. lia.
  - apply Z.leb_le. lia.
Qed.

(** The weight 1. *)
Lemma float32_of_double_exact_witness :
  float32_of_double double_one = S754_finite false 8388608 (-23) ∧
  (Z.of_nat 29 = 53 - Zpos (digits2_pos 8388608) → is_double double_one = true).
Proof.
  exact (float32_of_double_exact false 8388608 (-23) 29 eq_refl).
Defined.

(** X11.  The narrowing of line 105 overflows: a [double] of at least 2^128
    is returned as +infinity. *)
Theorem float32_of_double_overflow (d : spec_float) :
  is_double d = true → SFleb two_pow_128 d = true →
  float32_of_double d = S754_infinity false.
Proof.
  destruct d as [[]|[]| |[] m e]; try (intros; discriminate); intros Hv Hle;
    [done|].
  cbn [float32_of_double].
  unfold is_double, valid_binary, bounded, canonical_mantissa in Hv.
  apply andb_prop in Hv as [Hc _]. apply Z.eqb_eq in Hc.
  unfold fexp, emin in Hc.
  unfold SFleb, SFcompare, two_pow_128 in Hle.
  apply binary_round_overflow.
  - destruct (Z.compare_spec 76 e); try discriminate; lia.
  - destruct (Z.compare_spec 76 e); try discriminate; lia.
Qed.

(** The weight 2^128. *)
Lemma float32_of_double_overflow_witness :
  float32_of_double two_pow_128 = S754_infinity false.
Proof.
  apply (float32_of_double_overflow two_pow_128); vm_compute; reflexivity.
Defined.
